(** * PostgresHelper: a shallow embedding of [PostgresDatabaseHelper.py]

    The helper is glue code around the psycopg2 driver and a logger.  The
    embedding keeps the driver abstract: a [driver] decides, from the history
    of calls made so far, whether the next call raises and which rows a fetch
    yields.  Every method of the class is a computation in a state-and-error
    monad whose state is the instance ([self]) together with the chronological
    trace of driver calls and log lines. *)

From Stdlib Require Import List String Ascii ZArith NArith Bool Lia.
Import ListNotations.
Local Open Scope string_scope.
Local Open Scope list_scope.
Local Open Scope Z_scope.

(** ** Python strings

    Statement texts are modelled as [string]: sequences of code points below
    256, for which [str.isspace] and [str.lower] are the tables below. *)

Module PyStr.

Definition isspace (c : ascii) : bool :=
  let n := N_of_ascii c in
  ((9 <=? n) && (n <=? 13) || (28 <=? n) && (n <=? 32)
   || (n =? 133) || (n =? 160))%N.

Definition lower_char (c : ascii) : ascii :=
  let n := N_of_ascii c in
  if ((65 <=? n) && (n <=? 90)
      || (192 <=? n) && (n <=? 222) && negb (n =? 215))%N
  then ascii_of_N (n + 32) else c.

Fixpoint lower (s : string) : string :=
  match s with
  | EmptyString => EmptyString
  | String c s' => String (lower_char c) (lower s')
  end.

Fixpoint lstrip (s : string) : string :=
  match s with
  | EmptyString => EmptyString
  | String c s' => if isspace c then lstrip s' else s
  end.

Fixpoint rstrip (s : string) : string :=
  match s with
  | EmptyString => EmptyString
  | String c s' =>
      match rstrip s' with
      | EmptyString => if isspace c then EmptyString else String c EmptyString
      | r => String c r
      end
  end.

Definition strip (s : string) : string := rstrip (lstrip s).

(** [s.startswith(p)] *)
Definition startswith (s p : string) : bool := String.prefix p s.

End PyStr.

(** ** Values, rows and exceptions *)

Inductive value :=
| VNone
| VBool (b : bool)
| VInt (z : Z)
| VStr (s : string).

(** A row as a cursor hands it out: a tuple for the default cursor, a
    [RealDictRow] (column name to value, in column order) for
    [RealDictCursor]. *)
Inductive row :=
| Tuple (vs : list value)
| RealDictRow (d : list (string * value)).

Inductive exn :=
| AttributeError (msg : string)
| TypeError (msg : string)
| ValueError (msg : string)
| KeyError (msg : string)
| IndexError (msg : string)
| Psycopg2Error (msg : string)
| PostgresDbConnectionError (msg : string) (context : exn)
| PostgresDbQueryExecutionError (msg : string) (context : exn).

(** [str(e)], as the f-strings of the handlers format it. *)
Definition str (e : exn) : string :=
  match e with
  | AttributeError m | TypeError m | ValueError m | KeyError m
  | IndexError m | Psycopg2Error m => m
  | PostgresDbConnectionError m _ | PostgresDbQueryExecutionError m _ => m
  end.

Definition is_connection_error (e : exn) : bool :=
  match e with PostgresDbConnectionError _ _ => true | _ => false end.

Definition is_query_execution_error (e : exn) : bool :=
  match e with PostgresDbQueryExecutionError _ _ => true | _ => false end.

(** ** Subscripting and ranges *)

Inductive result (A : Type) :=
| Return (a : A)
| Raise (e : exn).
Arguments Return {A} a.
Arguments Raise {A} e.

Fixpoint dict_get (d : list (string * value)) (k : string) : option value :=
  match d with
  | [] => None
  | (k', v) :: d' => if String.eqb k' k then Some v else dict_get d' k
  end.

(** [result['count']] where [result] is what [fetchone] returned. *)
Definition getitem_str (r : option row) (k : string) : result value :=
  match r with
  | None => Raise (TypeError "'NoneType' object is not subscriptable")
  | Some (Tuple _) =>
      Raise (TypeError "tuple indices must be integers or slices, not str")
  | Some (RealDictRow d) =>
      match dict_get d k with
      | Some v => Return v
      | None => Raise (KeyError ("'" ++ k ++ "'")%string)
      end
  end.

(** [result[0]] *)
Definition getitem_0 (r : option row) : result value :=
  match r with
  | None => Raise (TypeError "'NoneType' object is not subscriptable")
  | Some (Tuple vs) =>
      match vs with
      | v :: _ => Return v
      | [] => Raise (IndexError "tuple index out of range")
      end
  | Some (RealDictRow _) => Raise (KeyError "0")
  end.

(** [range(start, stop, step)], with the length CPython computes. *)
Definition range_length (start stop step : Z) : Z :=
  if 0 <? step then
    if start <? stop then (stop - start - 1) / step + 1 else 0
  else
    if stop <? start then (start - stop - 1) / (- step) + 1 else 0.

Definition range (start stop step : Z) : result (list Z) :=
  if step =? 0 then Raise (ValueError "range() arg 3 must not be zero")
  else Return (map (fun j => start + Z.of_nat j * step)
                   (seq 0 (Z.to_nat (range_length start stop step)))).

(** [data[lo:hi]]: both bounds are adjusted as slicing does (a negative bound
    counts from the end, then both are clamped into [0, len]). *)
Definition adjust_index (len i : Z) : Z :=
  if i <? 0 then Z.max 0 (i + len) else Z.min i len.

Definition slice {A} (data : list A) (lo hi : Z) : list A :=
  let len := Z.of_nat (List.length data) in
  let lo' := adjust_index len lo in
  let hi' := adjust_index len hi in
  firstn (Z.to_nat (hi' - lo')) (skipn (Z.to_nat lo') data).

(** ** The instance, the trace and the driver *)

Inductive cursor_factory := RealDictCursor.

Record connection_obj := { autocommit : bool }.
Record cursor_obj := { factory : option cursor_factory }.
Record logger_obj := { logger_name : string }.

(** The attributes of a [PostgresHelper] instance.  [connection] and [cursor]
    hold [None] or an object; [logger] and [use_dict_cursor] are [None] while
    the attribute is not bound yet. *)
Record PostgresHelper := {
  connection : option connection_obj;
  cursor : option cursor_obj;
  logger : option logger_obj;
  use_dict_cursor : option bool
}.

Inductive event :=
| Connect (host : string) (port : Z) (database user password : string)
| NewCursor (f : option cursor_factory)
| Execute (query : string) (params : option (list value))
| ExecuteMany (query : string) (chunk : list (list value))
| FetchAll
| FetchOne
| Commit
| Rollback
| CursorClose
| ConnectionClose
| AddHandler (name : string)
| LogInfo (msg : string)
| LogError (msg : string).

(** [if obj:] for an attribute holding [None] or a driver object. *)
Definition truthy {A} (o : option A) : bool :=
  match o with Some _ => true | None => false end.

(** The driver as seen from the helper: given the calls made so far,
    [fails] tells whether the next call raises, and the two fetch fields give
    what a successful fetch hands back. *)
Record driver := {
  fails : list event -> event -> option exn;
  fetchall_rows : list event -> list row;
  fetchone_row : list event -> option row
}.

Record world := {
  self : PostgresHelper;
  trace : list event
}.

(** ** The monad *)

Definition M (A : Type) : Type := world -> result A * world.

Definition ret {A} (a : A) : M A := fun w => (Return a, w).

Definition bind {A B} (m : M A) (k : A -> M B) : M B :=
  fun w =>
    match m w with
    | (Return a, w') => k a w'
    | (Raise e, w') => (Raise e, w')
    end.

Definition raise {A} (e : exn) : M A := fun w => (Raise e, w).

(** [try: body / except Exception as e: handler e] *)
Definition try_except {A} (body : M A) (handler : exn -> M A) : M A :=
  fun w =>
    match body w with
    | (Return a, w') => (Return a, w')
    | (Raise e, w') => handler e w'
    end.

Declare Scope py_scope.
Delimit Scope py_scope with py.
Notation "x <- c ;; k" := (bind c (fun x => k))
  (at level 100, c at next level, right associativity) : py_scope.
Notation "c ;; k" := (bind c (fun _ => k))
  (at level 100, right associativity) : py_scope.
Local Open Scope py_scope.

Definition lift {A} (r : result A) : M A := fun w => (r, w).

Definition emit (ev : event) : M unit :=
  fun w => (Return tt, {| self := self w; trace := trace w ++ [ev] |}).

Definition get_self : M PostgresHelper := fun w => (Return (self w), w).

Definition set_self (s : PostgresHelper) : M unit :=
  fun w => (Return tt, {| self := s; trace := trace w |}).

(** [for x in xs: body x] *)
Fixpoint for_each {A} (xs : list A) (body : A -> M unit) : M unit :=
  match xs with
  | [] => ret tt
  | x :: xs' => body x ;; for_each xs' body
  end.

(** ** Attribute access and the calls the helper makes *)

Section Helper.

Variable drv : driver.

Definition get_trace : M (list event) := fun w => (Return (trace w), w).

(** A call into the driver: it is recorded, and the driver decides from the
    history before it whether it raises. *)
Definition driver_call (ev : event) : M unit :=
  fun w =>
    let w' := {| self := self w; trace := trace w ++ [ev] |} in
    match fails drv (trace w) ev with
    | Some e => (Raise e, w')
    | None => (Return tt, w')
    end.

Definition none_has_no (attr : string) : exn :=
  AttributeError ("'NoneType' object has no attribute '" ++ attr ++ "'")%string.

Definition helper_has_no (attr : string) : exn :=
  AttributeError
    ("'PostgresHelper' object has no attribute '" ++ attr ++ "'")%string.

Definition set_connection (c : option connection_obj) : M unit :=
  s <- get_self ;;
  set_self {| connection := c; cursor := cursor s; logger := logger s;
              use_dict_cursor := use_dict_cursor s |}.

Definition set_cursor (c : option cursor_obj) : M unit :=
  s <- get_self ;;
  set_self {| connection := connection s; cursor := c; logger := logger s;
              use_dict_cursor := use_dict_cursor s |}.

Definition set_logger (l : logger_obj) : M unit :=
  s <- get_self ;;
  set_self {| connection := connection s; cursor := cursor s;
              logger := Some l; use_dict_cursor := use_dict_cursor s |}.

Definition set_use_dict_cursor (b : bool) : M unit :=
  s <- get_self ;;
  set_self {| connection := connection s; cursor := cursor s;
              logger := logger s; use_dict_cursor := Some b |}.

(** [self.connection.autocommit = b] *)
Definition set_connection_autocommit (b : bool) : M unit :=
  s <- get_self ;;
  match connection s with
  | None => raise (none_has_no "autocommit")
  | Some _ => set_connection (Some {| autocommit := b |})
  end.

(** [self.connection.autocommit] *)
Definition connection_autocommit : M bool :=
  s <- get_self ;;
  match connection s with
  | None => raise (none_has_no "autocommit")
  | Some c => ret (autocommit c)
  end.

(** [self.use_dict_cursor] *)
Definition read_use_dict_cursor : M bool :=
  s <- get_self ;;
  match use_dict_cursor s with
  | None => raise (helper_has_no "use_dict_cursor")
  | Some b => ret b
  end.

(** A method call on [self.connection]. *)
Definition on_connection (method : string) (ev : event) : M unit :=
  s <- get_self ;;
  match connection s with
  | None => raise (none_has_no method)
  | Some _ => driver_call ev
  end.

(** A method call on [self.cursor]. *)
Definition on_cursor (method : string) (ev : event) : M unit :=
  s <- get_self ;;
  match cursor s with
  | None => raise (none_has_no method)
  | Some _ => driver_call ev
  end.

Definition connection_commit : M unit := on_connection "commit" Commit.
Definition connection_rollback : M unit := on_connection "rollback" Rollback.
Definition connection_close : M unit := on_connection "close" ConnectionClose.

(** [self.connection.cursor(cursor_factory=f)] *)
Definition connection_cursor (f : option cursor_factory) : M cursor_obj :=
  on_connection "cursor" (NewCursor f) ;;
  ret {| factory := f |}.

Definition cursor_execute (query : string) (params : option (list value))
  : M unit := on_cursor "execute" (Execute query params).

Definition cursor_executemany (query : string) (chunk : list (list value))
  : M unit := on_cursor "executemany" (ExecuteMany query chunk).

Definition cursor_close : M unit := on_cursor "close" CursorClose.

Definition cursor_fetchall : M (list row) :=
  t <- get_trace ;;
  on_cursor "fetchall" FetchAll ;;
  ret (fetchall_rows drv t).

Definition cursor_fetchone : M (option row) :=
  t <- get_trace ;;
  on_cursor "fetchone" FetchOne ;;
  ret (fetchone_row drv t).

(** [psycopg2.connect(...)]: a fresh connection starts with autocommit off. *)
Definition psycopg2_connect (host : string) (port : Z)
    (database user password : string) : M connection_obj :=
  driver_call (Connect host port database user password) ;;
  ret {| autocommit := false |}.

(** [self.logger.info(msg)] and [self.logger.error(msg)] *)
Definition logger_info (msg : string) : M unit :=
  s <- get_self ;;
  match logger s with
  | None => raise (helper_has_no "logger")
  | Some _ => emit (LogInfo msg)
  end.

Definition logger_error (msg : string) : M unit :=
  s <- get_self ;;
  match logger s with
  | None => raise (helper_has_no "logger")
  | Some _ => emit (LogError msg)
  end.

(** ** The class *)

Definition _initialize_logger : M logger_obj :=
  emit (AddHandler "PostgresHelper") ;;
  ret {| logger_name := "PostgresHelper" |}.

(** Lines 67 to 83 of [__init__]: everything after the first three
    assignments. *)
Definition init_from_line_67 (host : string) (port : Z)
    (database user password : string) (logger : option logger_obj)
    (autocommit use_dict_cursor : bool) : M unit :=
  lg <- match logger with
        | Some l => ret l
        | None => _initialize_logger
        end ;;
  set_logger lg ;;
  set_use_dict_cursor use_dict_cursor ;;
  try_except
    (c <- psycopg2_connect host port database user password ;;
     set_connection (Some c) ;;
     set_connection_autocommit autocommit ;;
     let cursor_factory :=
       if use_dict_cursor then Some RealDictCursor else None in
     cur <- connection_cursor cursor_factory ;;
     set_cursor (Some cur) ;;
     logger_info "Database connection established successfully.")
    (fun e =>
       logger_error ("Error connecting to the database: " ++ str e)%string ;;
       raise (PostgresDbConnectionError
                ("Error connecting to the database: " ++ str e)%string e)).

Definition __init__ (host : string) (port : Z)
    (database user password : string) (logger : option logger_obj)
    (autocommit use_dict_cursor : bool) : M unit :=
  set_connection None ;;
  set_cursor None ;;
  set_connection_autocommit autocommit ;;
  init_from_line_67 host port database user password logger
                    autocommit use_dict_cursor.

(** The test of line 125. *)
Definition is_select (query : string) : bool :=
  PyStr.startswith (PyStr.lower (PyStr.strip query)) "select".

Definition select_execute_query_try (query : string)
    (params : option (list value)) : M (option (list row)) :=
  cursor_execute query params ;;
  if is_select query
  then (rows <- cursor_fetchall ;; ret (Some rows))
  else ret None.

Definition select_execute_query (query : string)
    (params : option (list value)) : M (option (list row)) :=
  try_except
    (select_execute_query_try query params)
    (fun e =>
       logger_error ("Error executing query: " ++ str e)%string ;;
       connection_rollback ;;
       raise (PostgresDbQueryExecutionError
                ("Error executing query: " ++ str e)%string e)).

Definition select_get_count_query_try (query : string)
    (params : option (list value)) : M value :=
  cursor_execute query params ;;
  result <- cursor_fetchone ;;
  named <- read_use_dict_cursor ;;
  lift (if named then getitem_str result "count" else getitem_0 result).

Definition select_get_count_query (query : string)
    (params : option (list value)) : M value :=
  try_except
    (select_get_count_query_try query params)
    (fun e =>
       logger_error ("Error getting row count: " ++ str e)%string ;;
       connection_rollback ;;
       raise (PostgresDbQueryExecutionError
                ("Error getting row count: " ++ str e)%string e)).

(** The body shared, line for line, by [insert], [update_execute_query] and
    [delete_execute_query]. *)
Definition execute_then_autocommit (query : string)
    (params : option (list value)) : M unit :=
  cursor_execute query params ;;
  ac <- connection_autocommit ;;
  if ac then connection_commit else ret tt.

Definition insert (query : string) (params : option (list value)) : M unit :=
  try_except
    (execute_then_autocommit query params)
    (fun e =>
       logger_error ("Error executing insert: " ++ str e)%string ;;
       connection_rollback ;;
       raise (PostgresDbQueryExecutionError
                ("Error executing insert: " ++ str e)%string e)).

Definition bulk_insert_try (query : string) (data : list (list value))
    (chunk_size : Z) : M unit :=
  indices <- lift (range 0 (Z.of_nat (List.length data)) chunk_size) ;;
  for_each indices (fun i =>
    let chunk := slice data i (i + chunk_size) in
    cursor_executemany query chunk) ;;
  ac <- connection_autocommit ;;
  if ac then connection_commit else ret tt.

Definition bulk_insert (query : string) (data : list (list value))
    (chunk_size : Z) : M unit :=
  try_except
    (bulk_insert_try query data chunk_size)
    (fun e =>
       logger_error ("Error executing bulk insert: " ++ str e)%string ;;
       connection_rollback ;;
       raise (PostgresDbQueryExecutionError
                ("Error executing bulk insert: " ++ str e)%string e)).

Definition update_execute_query (query : string)
    (params : option (list value)) : M unit :=
  try_except
    (execute_then_autocommit query params)
    (fun e =>
       logger_error ("Error executing update: " ++ str e)%string ;;
       connection_rollback ;;
       raise (PostgresDbQueryExecutionError
                ("Error executing update: " ++ str e)%string e)).

Definition delete_execute_query (query : string)
    (params : option (list value)) : M unit :=
  try_except
    (execute_then_autocommit query params)
    (fun e =>
       logger_error ("Error executing delete: " ++ str e)%string ;;
       connection_rollback ;;
       raise (PostgresDbQueryExecutionError
                ("Error executing delete: " ++ str e)%string e)).

Definition commit : M unit :=
  try_except
    connection_commit
    (fun e =>
       logger_error ("Error committing transaction: " ++ str e)%string ;;
       raise (PostgresDbQueryExecutionError
                ("Error committing transaction: " ++ str e)%string e)).

Definition rollback : M unit :=
  try_except
    connection_rollback
    (fun e =>
       logger_error ("Error rolling back transaction: " ++ str e)%string ;;
       raise (PostgresDbQueryExecutionError
                ("Error rolling back transaction: " ++ str e)%string e)).

Definition close_try : M unit :=
  s <- get_self ;;
  (if truthy (cursor s) then cursor_close else ret tt) ;;
  s' <- get_self ;;
  if truthy (connection s')
  then (connection_close ;; logger_info "Database connection closed.")
  else ret tt.

Definition close : M unit :=
  try_except
    close_try
    (fun e =>
       logger_error ("Error closing connection: " ++ str e)%string ;;
       raise (PostgresDbConnectionError
                ("Error closing connection: " ++ str e)%string e)).

Definition __enter__ : M unit := ret tt.

Definition __exit__ : M unit := close.

End Helper.

(** * Vocabulary of the properties *)

(** ** Statements *)

(** The spec's wording of the test: the statement, leading whitespace
    ignored and case folded, begins with [select]. *)
Definition begins_with_select (query : string) : bool :=
  String.prefix "select" (PyStr.lower (PyStr.lstrip query)).

(** A string without whitespace characters. *)
Definition no_space (p : string) : Prop :=
  forall c, In c (list_ascii_of_string p) -> PyStr.isspace c = false.

(** ** Instances, runs and traces *)

(** The Open state: connection and cursor hold an object, and the logger and
    the shape flag are bound. *)
Definition is_open (s : PostgresHelper) : bool :=
  truthy (connection s) && truthy (cursor s)
  && truthy (logger s) && truthy (use_dict_cursor s).

(** [self.connection.autocommit], read as a flag of the instance. *)
Definition autocommit_on (s : PostgresHelper) : bool :=
  match connection s with
  | Some c => autocommit c
  | None => false
  end.

(** The events a run has added to the trace. *)
Definition extends (w w' : world) (evs : list event) : Prop :=
  self w' = self w /\ trace w' = trace w ++ evs.

(** Every method but [__init__] only reads [self] and only adds to the
    trace. *)
Definition grows {A} (m : M A) : Prop :=
  forall w r w1, m w = (r, w1) ->
    self w1 = self w /\ exists evs, trace w1 = trace w ++ evs.

(** A handler that ends in [raise] never returns normally. *)
Definition never_returns {A} (m : M A) : Prop :=
  forall w a w', m w <> (Return a, w').

(** Event classes. *)
Definition is_release (ev : event) : bool :=
  match ev with CursorClose | ConnectionClose => true | _ => false end.

Definition is_cursor_close (ev : event) : bool :=
  match ev with CursorClose => true | _ => false end.

Definition is_commit (ev : event) : bool :=
  match ev with Commit => true | _ => false end.

(** The caller receives [PostgresDbQueryExecutionError]. *)
Definition fails_with_query_execution_error {A} (r : result A * world)
  : Prop :=
  exists msg cause w',
    r = (Raise (PostgresDbQueryExecutionError msg cause), w').

(** Calls into the driver, as opposed to log lines. *)
Definition is_call (ev : event) : bool :=
  match ev with
  | AddHandler _ | LogInfo _ | LogError _ => false
  | _ => true
  end.

(** Every driver call among [evs], made after the history [t], went
    through. *)
Fixpoint all_succeeded (drv : driver) (t evs : list event) : Prop :=
  match evs with
  | [] => True
  | ev :: evs' =>
      (is_call ev = true -> fails drv t ev = None)
      /\ all_succeeded drv (t ++ [ev]) evs'
  end.

(** A computation that returns normally only if every driver call it made
    went through. *)
Definition swallows_nothing (drv : driver) {A} (m : M A) : Prop :=
  forall w a w1, m w = (Return a, w1) ->
    exists evs, trace w1 = trace w ++ evs
                /\ all_succeeded drv (trace w) evs.

(** ** Bulk insertion *)

(** The chunks the loop of lines 187 to 189 forms; none when [range]
    raises. *)
Definition bulk_chunks {A} (data : list A) (K : Z) : list (list A) :=
  match range 0 (Z.of_nat (List.length data)) K with
  | Return indices => map (fun i => slice data i (i + K)) indices
  | Raise _ => []
  end.

(** The number of chunks, for a positive chunk size. *)
Definition chunk_count {A} (data : list A) (K : Z) : nat :=
  Z.to_nat (range_length 0 (Z.of_nat (List.length data)) K).

(** Row-by-row application, in the spec's words: the statement executed
    once per row, in input order. *)
Definition row_by_row (query : string) (data : list (list value))
  : list event :=
  map (fun r => Execute query (Some r)) data.

(** The applications of a statement to a row of parameters that a sequence
    of driver calls makes; [executemany] applies its statement to every row
    of its chunk, in order. *)
Definition applications (evs : list event) : list (string * list value) :=
  flat_map
    (fun ev =>
       match ev with
       | Execute q (Some r) => [(q, r)]
       | ExecuteMany q chunk => map (pair q) chunk
       | _ => []
       end) evs.

(** ** Closing and the failure policy *)

(** What one [close()] asks the driver to release, and the line it logs:
    the cursor first, then the connection, each only when the attribute
    holds an object. *)
Definition released (s : PostgresHelper) : list event :=
  (if truthy (cursor s) then [CursorClose] else [])
  ++ (if truthy (connection s)
      then [ConnectionClose; LogInfo "Database connection closed."]
      else []).

(** The handler of the six statement methods, with the method's own message
    prefix: log, roll back, raise. *)
Definition log_rollback_raise (drv : driver) {A} (label : string) (e : exn)
  : M A :=
  logger_error (label ++ str e)%string ;;
  connection_rollback drv ;;
  raise (PostgresDbQueryExecutionError (label ++ str e)%string e).

(** How the outcome of such a method relates to the outcome of its [try]
    block: a normal return is passed on; a failure [e] is logged, a rollback
    is attempted, and the caller gets [PostgresDbQueryExecutionError]
    carrying [e] if the rollback call went through, the rollback's own error
    if it did not. *)
Definition logged_rolled_back_wrapped (drv : driver) {A} (label : string)
    (attempt outcome : result A * world) : Prop :=
  match attempt with
  | (Return a, w1) => outcome = (Return a, w1)
  | (Raise e, w1) =>
      let msg := (label ++ str e)%string in
      outcome
      = (match fails drv (trace w1 ++ [LogError msg]) Rollback with
         | None => Raise (PostgresDbQueryExecutionError msg e)
         | Some e' => Raise e'
         end,
         {| self := self w1; trace := trace w1 ++ [LogError msg; Rollback] |})
  end.

(** The same for [commit()] and [rollback()], whose handlers log and raise
    without a rollback. *)
Definition logged_wrapped {A} (label : string)
    (attempt outcome : result A * world) : Prop :=
  match attempt with
  | (Return a, w1) => outcome = (Return a, w1)
  | (Raise e, w1) =>
      let msg := (label ++ str e)%string in
      outcome
      = (Raise (PostgresDbQueryExecutionError msg e),
         {| self := self w1; trace := trace w1 ++ [LogError msg] |})
  end.

(** ** Concrete drivers and instances *)

(** A driver on which no call ever raises; every fetch sees [rows]. *)
Definition always_ok (rows : list row) : driver :=
  {| fails := fun _ _ => None;
     fetchall_rows := fun _ => rows;
     fetchone_row := fun _ => hd_error rows |}.

(** A driver whose server is gone: every call raises. *)
Definition server_gone : driver :=
  {| fails := fun _ _ => Some (Psycopg2Error "connection already closed");
     fetchall_rows := fun _ => [];
     fetchone_row := fun _ => None |}.

(** A driver that refuses to close a cursor that was closed before. *)
Definition strict_release : driver :=
  {| fails := fun t ev =>
       if is_cursor_close ev && existsb is_cursor_close t
       then Some (Psycopg2Error "already closed") else None;
     fetchall_rows := fun _ => [];
     fetchone_row := fun _ => None |}.

(** A server that drops the connection: the statement fails, and so does
    every later call on the connection. *)
Definition connection_lost : driver :=
  {| fails := fun _ ev =>
       match ev with
       | Execute _ _ | ExecuteMany _ _ =>
           Some (Psycopg2Error "server closed the connection unexpectedly")
       | _ => Some (Psycopg2Error "connection already closed")
       end;
     fetchall_rows := fun _ => [];
     fetchone_row := fun _ => None |}.

(** A server that rejects every statement and accepts everything else. *)
Definition rejects_statements : driver :=
  {| fails := fun _ ev =>
       match ev with
       | Execute _ _ | ExecuteMany _ _ =>
           Some (Psycopg2Error "syntax error at or near FORM")
       | _ => None
       end;
     fetchall_rows := fun _ => [];
     fetchone_row := fun _ => None |}.

(** The instance as [__init__] receives it. *)
Definition fresh : PostgresHelper :=
  {| connection := None; cursor := None; logger := None;
     use_dict_cursor := None |}.

(** The instance lines 67 to 83 build when nothing fails. *)
Definition opened (lg : logger_obj) (autocommit use_dict_cursor : bool)
  : PostgresHelper :=
  {| connection := Some {| autocommit := autocommit |};
     cursor := Some {| factory := if use_dict_cursor
                                  then Some RealDictCursor else None |};
     logger := Some lg;
     use_dict_cursor := Some use_dict_cursor |}.

Definition default_logger : logger_obj :=
  {| logger_name := "PostgresHelper" |}.

(** A world with no call made yet. *)
Definition at_start (s : PostgresHelper) : world :=
  {| self := s; trace := [] |}.

(** Sample rows for a two-column insert. *)
Definition member_rows (n : nat) : list (list value) :=
  map (fun i => [VInt (Z.of_nat i); VStr "member"]) (seq 0 n).

(** ** Further vocabulary *)

(** A string made of whitespace only. *)
Fixpoint all_space (s : string) : bool :=
  match s with
  | EmptyString => true
  | String c s' => PyStr.isspace c && all_space s'
  end.

(** Every event a run adds satisfies [P], whatever the outcome of the run. *)
Definition only (P : event -> Prop) {A} (m : M A) : Prop :=
  forall w r w1, m w = (r, w1) ->
    exists evs, trace w1 = trace w ++ evs /\ Forall P evs.

(** A run adds at most [n] events of the class [cls], whatever its
    outcome. *)
Definition at_most (cls : event -> bool) (n : nat) {A} (m : M A) : Prop :=
  forall w r w1, m w = (r, w1) ->
    exists evs, trace w1 = trace w ++ evs
                /\ (List.length (filter cls evs) <= n)%nat.

Definition is_execute (ev : event) : bool :=
  match ev with Execute _ _ | ExecuteMany _ _ => true | _ => false end.

Definition is_rollback (ev : event) : bool :=
  match ev with Rollback => true | _ => false end.

Definition is_error_log (ev : event) : Prop := exists msg, ev = LogError msg.

(** The events a query method may add: the statement as given, with its
    parameters beside it, the one fetch of the method, a rollback, an error
    line. *)
Definition query_footprint (query : string) (params : option (list value))
    (fetch : event) (ev : event) : Prop :=
  ev = Execute query params \/ ev = fetch \/ ev = Rollback
  \/ is_error_log ev.

(** The events [insert], [update_execute_query] and [delete_execute_query]
    may add. *)
Definition mutation_footprint (query : string)
    (params : option (list value)) (ev : event) : Prop :=
  ev = Execute query params \/ ev = Commit \/ ev = Rollback
  \/ is_error_log ev.

(** The events [bulk_insert] may add. *)
Definition bulk_footprint (query : string) (data : list (list value))
    (K : Z) (ev : event) : Prop :=
  (exists chunk, In chunk (bulk_chunks data K)
                 /\ ev = ExecuteMany query chunk)
  \/ ev = Commit \/ ev = Rollback \/ is_error_log ev.

(** The events [close] may add. *)
Definition close_footprint (ev : event) : Prop :=
  ev = CursorClose \/ ev = ConnectionClose
  \/ ev = LogInfo "Database connection closed." \/ is_error_log ev.

(** No retry: at most [n] executions of a statement, at most one commit and
    at most one rollback, whatever the outcome. *)
Definition single_attempt (n : nat) {A} (m : M A) : Prop :=
  at_most is_execute n m /\ at_most is_commit 1 m /\ at_most is_rollback 1 m.

(** [with self: body], for an instance that exists already: [__enter__],
    then the block, then [__exit__] on every path.  [__exit__] returns
    [None], so an exception of the block is raised again after it; an
    exception of [__exit__] itself takes its place. *)
Definition with_block (drv : driver) {A} (body : M A) : M A :=
  __enter__ ;;
  fun w =>
    match body w with
    | (Return a, w1) => (__exit__ drv ;; ret a) w1
    | (Raise e, w1) => (__exit__ drv ;; raise e) w1
    end.

(** The logger lines 67 to 83 end up with, and what setting it up adds to
    the trace. *)
Definition logger_or_default (logger : option logger_obj) : logger_obj :=
  match logger with
  | Some l => l
  | None => {| logger_name := "PostgresHelper" |}
  end.

Definition logger_setup (logger : option logger_obj) : list event :=
  match logger with
  | Some _ => []
  | None => [AddHandler "PostgresHelper"]
  end.

(** A driver that accepts every call but a rollback; no query yields a
    row. *)
Definition rollback_refused : driver :=
  {| fails := fun _ ev =>
       if is_rollback ev
       then Some (Psycopg2Error "connection already closed") else None;
     fetchall_rows := fun _ => [];
     fetchone_row := fun _ => None |}.

(** * Properties *)

(** ** Strings: the test of line 125 *)

Module PyStrFacts.
Import PyStr.

Lemma isspace_lower_char c : isspace c = true -> lower_char c = c.
Proof.
  destruct c as [[] [] [] [] [] [] [] []]; vm_compute;
    first [reflexivity | discriminate].
Qed.

Lemma rstrip_empty_prefix p s :
  no_space p -> rstrip s = EmptyString -> p <> EmptyString ->
  String.prefix p (lower s) = false.
Proof.
  intros Hp Hs Hne. destruct p as [|a p]; [congruence|].
  destruct s as [|c s]; [reflexivity|].
  simpl in Hs. destruct (rstrip s); [|discriminate].
  destruct (isspace c) eqn:Hc; [|discriminate].
  simpl. destruct (Ascii.ascii_dec a (lower_char c)) as [->|]; [|reflexivity].
  rewrite (isspace_lower_char _ Hc) in Hp.
  specialize (Hp c (or_introl eq_refl)). congruence.
Qed.

(** Trailing whitespace cannot change whether a whitespace-free prefix
    matches. *)
Lemma prefix_lower_rstrip p : forall s,
  no_space p -> String.prefix p (lower (rstrip s)) = String.prefix p (lower s).
Proof.
  induction p as [|a p IH]; intros s Hp.
  - destruct (lower (rstrip s)), (lower s); reflexivity.
  - assert (Hp' : no_space p) by (intros c Hc; apply Hp; right; exact Hc).
    destruct s as [|c s]; [reflexivity|].
    simpl rstrip. destruct (rstrip s) as [|r rs] eqn:Hr.
    + destruct (isspace c) eqn:Hc.
      * symmetry. apply rstrip_empty_prefix.
        -- exact Hp.
        -- simpl. rewrite Hr, Hc. reflexivity.
        -- discriminate.
      * simpl. destruct (Ascii.ascii_dec a (lower_char c)); [|reflexivity].
        rewrite <- (IH s Hp'), Hr. reflexivity.
    + simpl. destruct (Ascii.ascii_dec a (lower_char c)); [|reflexivity].
      rewrite <- (IH s Hp'), Hr. reflexivity.
Qed.

Lemma select_no_space : no_space "select".
Proof.
  intros c Hc. simpl in Hc.
  repeat (destruct Hc as [<-|Hc]; [reflexivity|]). destruct Hc.
Qed.

End PyStrFacts.

Lemma is_select_begins_with_select query :
  is_select query = begins_with_select query.
Proof.
  unfold is_select, PyStr.startswith, PyStr.strip,
    begins_with_select.
  apply PyStrFacts.prefix_lower_rstrip, PyStrFacts.select_no_space.
Qed.

Example is_select_mixed_case :
  is_select (String (ascii_of_nat 9) "  SeLeCt * from t  ") = true.
Proof. reflexivity. Qed.

Example is_select_with_clause :
  is_select "with x as (select 1) select * from x" = false.
Proof. reflexivity. Qed.

(** ** Reasoning about computations *)

Lemma extends_refl w : extends w w [].
Proof. split; [reflexivity | now rewrite app_nil_r]. Qed.

Lemma extends_trans w1 w2 w3 e1 e2 :
  extends w1 w2 e1 -> extends w2 w3 e2 -> extends w1 w3 (e1 ++ e2).
Proof.
  intros [S1 T1] [S2 T2]. split; [congruence|].
  rewrite T2, T1, app_assoc. reflexivity.
Qed.

Lemma is_open_inv s :
  is_open s = true ->
  exists c cur lg u,
    s = {| connection := Some c; cursor := Some cur;
           logger := Some lg; use_dict_cursor := Some u |}.
Proof.
  destruct s as [[c|] [cur|] [lg|] [u|]]; cbn; try discriminate.
  intros _. now exists c, cur, lg, u.
Qed.

Section Runs.

Variable drv : driver.

Lemma bind_Return {A B} (m : M A) (k : A -> M B) w a w1 :
  m w = (Return a, w1) -> bind m k w = k a w1.
Proof. unfold bind. now intros ->. Qed.

Lemma bind_Raise {A B} (m : M A) (k : A -> M B) w e w1 :
  m w = (Raise e, w1) -> bind m k w = (Raise e, w1).
Proof. unfold bind. now intros ->. Qed.

Lemma bind_inv {A B} (m : M A) (k : A -> M B) w b w2 :
  bind m k w = (Return b, w2) ->
  exists a w1, m w = (Return a, w1) /\ k a w1 = (Return b, w2).
Proof.
  unfold bind. destruct (m w) as [[a|e] w1]; [|discriminate].
  intros H. now exists a, w1.
Qed.

Lemma try_Return {A} (m : M A) h w a w1 :
  m w = (Return a, w1) -> try_except m h w = (Return a, w1).
Proof. unfold try_except. now intros ->. Qed.

Lemma try_Raise {A} (m : M A) h w e w1 :
  m w = (Raise e, w1) -> try_except m h w = h e w1.
Proof. unfold try_except. now intros ->. Qed.

(** A driver call always extends the trace by the call itself. *)
Lemma driver_call_run ev w :
  driver_call drv ev w =
    (match fails drv (trace w) ev with
     | Some e => Raise e
     | None => Return tt
     end, {| self := self w; trace := trace w ++ [ev] |}).
Proof. unfold driver_call. destruct (fails drv (trace w) ev); reflexivity. Qed.

Lemma on_connection_run method ev w c :
  connection (self w) = Some c ->
  on_connection drv method ev w = driver_call drv ev w.
Proof. unfold on_connection, bind, get_self. now intros ->. Qed.

Lemma on_cursor_run method ev w c :
  cursor (self w) = Some c ->
  on_cursor drv method ev w = driver_call drv ev w.
Proof. unfold on_cursor, bind, get_self. now intros ->. Qed.

Lemma logger_error_run msg w lg :
  logger (self w) = Some lg ->
  logger_error msg w =
    (Return tt, {| self := self w; trace := trace w ++ [LogError msg] |}).
Proof. unfold logger_error, bind, get_self, emit. now intros ->. Qed.

Lemma logger_info_run msg w lg :
  logger (self w) = Some lg ->
  logger_info msg w =
    (Return tt, {| self := self w; trace := trace w ++ [LogInfo msg] |}).
Proof. unfold logger_info, bind, get_self, emit. now intros ->. Qed.

Lemma driver_call_inv ev w a w1 :
  driver_call drv ev w = (Return a, w1) ->
  fails drv (trace w) ev = None
  /\ w1 = {| self := self w; trace := trace w ++ [ev] |}.
Proof.
  rewrite driver_call_run. destruct (fails drv (trace w) ev); [discriminate|].
  intros H. injection H as _ <-. split; reflexivity.
Qed.

Lemma on_connection_inv method ev w a w1 :
  on_connection drv method ev w = (Return a, w1) ->
  truthy (connection (self w)) = true
  /\ fails drv (trace w) ev = None
  /\ w1 = {| self := self w; trace := trace w ++ [ev] |}.
Proof.
  destruct (connection (self w)) as [c|] eqn:Hc.
  - rewrite (on_connection_run _ _ _ _ Hc). intros H.
    apply driver_call_inv in H. now split.
  - unfold on_connection, bind, get_self, raise. rewrite Hc. discriminate.
Qed.

Lemma on_cursor_inv method ev w a w1 :
  on_cursor drv method ev w = (Return a, w1) ->
  truthy (cursor (self w)) = true
  /\ fails drv (trace w) ev = None
  /\ w1 = {| self := self w; trace := trace w ++ [ev] |}.
Proof.
  destruct (cursor (self w)) as [c|] eqn:Hc.
  - rewrite (on_cursor_run _ _ _ _ Hc). intros H.
    apply driver_call_inv in H. now split.
  - unfold on_cursor, bind, get_self, raise. rewrite Hc. discriminate.
Qed.

Lemma cursor_fetchall_inv w rows w1 :
  cursor_fetchall drv w = (Return rows, w1) ->
  truthy (cursor (self w)) = true
  /\ fails drv (trace w) FetchAll = None
  /\ w1 = {| self := self w; trace := trace w ++ [FetchAll] |}
  /\ rows = fetchall_rows drv (trace w).
Proof.
  unfold cursor_fetchall. intros H.
  apply bind_inv in H as (t & w0 & Ht & H).
  injection Ht as <- <-.
  apply bind_inv in H as ([] & w2 & Hc & H).
  apply on_cursor_inv in Hc as (? & ? & ->).
  injection H as <- <-. repeat split; assumption.
Qed.

Lemma connection_autocommit_inv w b w1 :
  connection_autocommit w = (Return b, w1) ->
  w1 = w /\ exists c, connection (self w) = Some c /\ autocommit c = b.
Proof.
  unfold connection_autocommit, bind, get_self, ret, raise.
  destruct (connection (self w)) as [c|]; [|discriminate].
  intros H. injection H as <- <-. split; [reflexivity|]. now exists c.
Qed.

Lemma raise_never_returns {A} e : never_returns (@raise A e).
Proof. intros w a w'. unfold raise. discriminate. Qed.

Lemma bind_never_returns {A B} (m : M A) (k : A -> M B) :
  (forall a, never_returns (k a)) -> never_returns (bind m k).
Proof.
  intros Hk w b w' H. apply bind_inv in H as (a & w1 & _ & H).
  exact (Hk a w1 b w' H).
Qed.

Lemma try_except_inv {A} (m : M A) h w a w' :
  (forall e, never_returns (h e)) ->
  try_except m h w = (Return a, w') -> m w = (Return a, w').
Proof.
  intros Hh. unfold try_except. destruct (m w) as [[a1|e] w1]; [easy|].
  intros H. now apply Hh in H.
Qed.

End Runs.

(** Unfold the monad and the attribute and driver primitives, leaving the
    driver's answers and the trace as they are. *)
Ltac run_py :=
  cbv beta iota zeta delta
    [bind ret raise lift try_except emit get_self set_self get_trace
     driver_call on_connection on_cursor
     set_connection set_cursor set_logger set_use_dict_cursor
     set_connection_autocommit connection_autocommit read_use_dict_cursor
     connection_commit connection_rollback connection_close
     connection_cursor cursor_execute cursor_executemany cursor_close
     cursor_fetchall cursor_fetchone psycopg2_connect
     logger_info logger_error _initialize_logger truthy];
  cbn [self trace connection cursor logger use_dict_cursor autocommit].

Tactic Notation "run_py" "in" hyp(H) :=
  cbv beta iota zeta delta
    [bind ret raise lift try_except emit get_self set_self get_trace
     driver_call on_connection on_cursor
     set_connection set_cursor set_logger set_use_dict_cursor
     set_connection_autocommit connection_autocommit read_use_dict_cursor
     connection_commit connection_rollback connection_close
     connection_cursor cursor_execute cursor_executemany cursor_close
     cursor_fetchall cursor_fetchone psycopg2_connect
     logger_info logger_error _initialize_logger truthy] in H;
  cbn [self trace connection cursor logger use_dict_cursor autocommit] in H.

Ltac handler_never_returns :=
  intros; repeat (apply bind_never_returns; intros);
  apply raise_never_returns.

(** ** Construction *)

(** What the constructor is written to do: from line 67 on, with a driver
    that accepts the connection and hands out a cursor, it opens one
    connection, creates one cursor of the requested shape, logs the success
    and leaves all four attributes bound. *)
Lemma init_from_line_67_opens drv host port database user password lg
    (autocommit use_dict_cursor : bool) w :
  let f := if use_dict_cursor then Some RealDictCursor else None in
  let c := Connect host port database user password in
  fails drv (trace w) c = None ->
  fails drv (trace w ++ [c]) (NewCursor f) = None ->
  init_from_line_67 drv host port database user password (Some lg)
                    autocommit use_dict_cursor w
  = (Return tt,
     {| self := opened lg autocommit use_dict_cursor;
        trace := trace w ++ [c] ++ [NewCursor f]
                 ++ [LogInfo "Database connection established successfully."]
     |}).
Proof.
  intros f c Hc Hf.
  subst f c. unfold init_from_line_67. run_py. rewrite Hc. run_py.
  rewrite Hf. run_py. unfold opened. rewrite <- !app_assoc. reflexivity.
Qed.

(** C1.  Constructing the helper never succeeds: whatever the parameters and
    whatever the driver would answer, [__init__] raises [AttributeError] at
    its third assignment ([self.connection.autocommit] while
    [self.connection] is still [None]); no connection is opened, nothing is
    logged, and the instance is not in the Open state. *)
Theorem init_raises_before_connecting :
  forall drv host port database user password logger autocommit
         use_dict_cursor w,
    exists w',
      __init__ drv host port database user password logger autocommit
               use_dict_cursor w
      = (Raise (AttributeError
                  "'NoneType' object has no attribute 'autocommit'"), w')
      /\ trace w' = trace w
      /\ is_open (self w') = false.
Proof.
  intros. eexists. split; [reflexivity|]. split; reflexivity.
Qed.

(** C2.  When the connection attempt would fail, the error that leaves the
    constructor is still the [AttributeError] of the third assignment, not
    [PostgresDbConnectionError]; the connection attempt is never made and no
    cause is logged.  The instance is left with no connection and no
    cursor. *)
Theorem init_failure_is_not_connection_error :
  forall drv host port database user password logger autocommit
         use_dict_cursor w cause,
    fails drv (trace w) (Connect host port database user password)
      = Some cause ->
    exists e w',
      __init__ drv host port database user password logger autocommit
               use_dict_cursor w = (Raise e, w')
      /\ is_connection_error e = false
      /\ trace w' = trace w
      /\ connection (self w') = None /\ cursor (self w') = None.
Proof.
  intros. do 2 eexists. split; [reflexivity|]. repeat split.
Qed.

Lemma init_failure_is_not_connection_error_witness :
  fails server_gone [] (Connect "db.invalid" 5432 "mydb" "myuser" "wrong")
    = Some (Psycopg2Error "connection already closed")
  /\ exists e w',
      __init__ server_gone "db.invalid" 5432 "mydb" "myuser" "wrong" None
               true false (at_start fresh) = (Raise e, w')
      /\ is_connection_error e = false
      /\ trace w' = trace (at_start fresh)
      /\ connection (self w') = None /\ cursor (self w') = None.
Proof.
  split; [reflexivity|].
  apply (init_failure_is_not_connection_error server_gone "db.invalid" 5432
           "mydb" "myuser" "wrong" None true false (at_start fresh)
           (Psycopg2Error "connection already closed")).
  reflexivity.
Defined.

(** ** Queries *)



(** C7.  When the statement executes and the fetch yields a row,
    [select_get_count_query] returns the value bound to [count] in that row
    if the instance uses the named shape, and the row's first value if it
    uses the positional shape. *)
Theorem select_get_count_query_value :
  forall drv query params w v,
    is_open (self w) = true ->
    fails drv (trace w) (Execute query params) = None ->
    fails drv (trace w ++ [Execute query params]) FetchOne = None ->
    (use_dict_cursor (self w) = Some true
     /\ (exists d,
           fetchone_row drv (trace w ++ [Execute query params])
             = Some (RealDictRow d)
           /\ dict_get d "count" = Some v)
     \/ use_dict_cursor (self w) = Some false
        /\ (exists vs,
              fetchone_row drv (trace w ++ [Execute query params])
                = Some (Tuple (v :: vs)))) ->
    select_get_count_query drv query params w
    = (Return v,
       {| self := self w; trace := trace w ++ [Execute query params; FetchOne]
       |}).
Proof.
  intros drv query params [s t] v Ho He Hf Hrow. cbn [self trace] in *.
  apply is_open_inv in Ho as (c & cur & lg & u & ->).
  unfold select_get_count_query, select_get_count_query_try.
  run_py. cbn [use_dict_cursor] in Hrow.
  rewrite He. run_py. rewrite Hf. run_py. rewrite <- app_assoc. cbn [app].
  destruct Hrow as [[Hu (d & -> & Hd)] | [Hu (vs & ->)]];
    injection Hu as ->; cbn.
  - rewrite Hd. reflexivity.
  - reflexivity.
Qed.

Lemma select_get_count_query_value_witness :
  let drv := always_ok [RealDictRow [("count", VInt 42)]] in
  let w := at_start (opened default_logger true true) in
  let q := "SELECT COUNT(*) as count FROM member WHERE plan = %s" in
  let p := Some [VStr "gold"] in
  select_get_count_query drv q p w
  = (Return (VInt 42),
     {| self := self w; trace := trace w ++ [Execute q p; FetchOne] |}).
Proof.
  intros drv w q p.
  apply (select_get_count_query_value drv q p w (VInt 42));
    try reflexivity.
  left. split; [reflexivity|].
  exists [("count", VInt 42)]. split; reflexivity.
Defined.

(** C9, as stated, fails when the rollback made by the handler fails: the
    statement executes and yields no row, the [TypeError] of the lookup is
    logged, the rollback is attempted, and it is the rollback's own driver
    error that is raised, not [PostgresDbQueryExecutionError]. *)
Lemma zero_rows_with_failing_rollback :
  let drv := rollback_refused in
  let w := at_start (opened default_logger false false) in
  let q := "SELECT count FROM daily_totals WHERE day = %s" in
  let p := Some [VStr "2024-02-30"] in
  let msg :=
    "Error getting row count: 'NoneType' object is not subscriptable" in
  fails drv (trace w) (Execute q p) = None
  /\ fetchone_row drv (trace w ++ [Execute q p]) = None
  /\ select_get_count_query drv q p w
     = (Raise (Psycopg2Error "connection already closed"),
        {| self := self w;
           trace := [Execute q p; FetchOne; LogError msg; Rollback] |})
  /\ ~ fails_with_query_execution_error (select_get_count_query drv q p w).
Proof.
  intros drv w q p msg. repeat split.
  intros (m & cause & w' & H). discriminate H.
Qed.

(** C9, amended.  When the statement executes but the fetch yields no row,
    reading the count from the absent row fails with [TypeError]; no value
    is returned and no error of its own kind is raised for the case: the
    failure is logged, a rollback is attempted, and the generic
    [PostgresDbQueryExecutionError] carrying the [TypeError] is raised,
    unless the rollback call itself raises, in which case its error is what
    reaches the caller. *)
Theorem select_get_count_query_no_row :
  forall drv query params w,
    is_open (self w) = true ->
    fails drv (trace w) (Execute query params) = None ->
    fails drv (trace w ++ [Execute query params]) FetchOne = None ->
    fetchone_row drv (trace w ++ [Execute query params]) = None ->
    let cause := TypeError "'NoneType' object is not subscriptable" in
    let msg :=
      "Error getting row count: 'NoneType' object is not subscriptable" in
    select_get_count_query drv query params w
    = (match fails drv (trace w ++ [Execute query params; FetchOne;
                                    LogError msg]) Rollback with
       | None => Raise (PostgresDbQueryExecutionError msg cause)
       | Some e' => Raise e'
       end,
       {| self := self w;
          trace := trace w ++ [Execute query params; FetchOne; LogError msg;
                               Rollback] |}).
Proof.
  intros drv query params [s t] Ho He Hf Hrow cause msg.
  cbn [self trace] in *.
  apply is_open_inv in Ho as (c & cur & lg & u & ->).
  unfold select_get_count_query, select_get_count_query_try.
  run_py. rewrite He. run_py. rewrite Hf. run_py. rewrite Hrow.
  assert (Hget : (if u then getitem_str None "count" else getitem_0 None)
                 = Raise cause) by (destruct u; reflexivity).
  rewrite Hget. run_py. cbn [str cause].
  change ("Error getting row count: "
          ++ "'NoneType' object is not subscriptable")%string with msg.
  rewrite <- !app_assoc. cbn [app].
  destruct (fails drv _ Rollback); reflexivity.
Qed.

Lemma select_get_count_query_no_row_witness :
  let drv := always_ok [] in
  let w := at_start (opened default_logger false false) in
  let q := "SELECT count FROM daily_totals WHERE day = %s" in
  let p := Some [VStr "2024-02-30"] in
  let msg :=
    "Error getting row count: 'NoneType' object is not subscriptable" in
  select_get_count_query drv q p w
  = (Raise (PostgresDbQueryExecutionError msg
              (TypeError "'NoneType' object is not subscriptable")),
     {| self := self w;
        trace := trace w ++ [Execute q p; FetchOne; LogError msg; Rollback]
     |}).
Proof.
  intros drv w q p msg.
  apply (select_get_count_query_no_row drv q p w); reflexivity.
Defined.

(** ** Mutations *)

Lemma execute_then_autocommit_inv drv query params w w' :
  execute_then_autocommit drv query params w = (Return tt, w') ->
  extends w w'
    (Execute query params :: if autocommit_on (self w) then [Commit] else []).
Proof.
  unfold execute_then_autocommit. intros H.
  apply bind_inv in H as ([] & w1 & He & H).
  apply on_cursor_inv in He as (_ & _ & ->).
  apply bind_inv in H as (ac & w2 & Ha & H).
  apply connection_autocommit_inv in Ha as (-> & c & Hc & <-).
  cbn [self] in Hc. unfold autocommit_on. rewrite Hc.
  destruct (autocommit c).
  - apply on_connection_inv in H as (_ & _ & ->).
    split; cbn; [reflexivity|]. now rewrite <- app_assoc.
  - injection H as <-. split; reflexivity.
Qed.

(** What a run of the body shared by the three methods, wrapped in their
    handler, comes to on an open instance once the statement is executed:
    with autocommit on the commit is the very next call, and the method
    returns if it is accepted and handles its failure if not; with
    autocommit off the method returns at once. *)
Lemma execute_then_autocommit_run drv label query params s t :
  is_open s = true ->
  fails drv t (Execute query params) = None ->
  try_except (execute_then_autocommit drv query params)
    (fun e =>
       logger_error (label ++ str e)%string ;;
       connection_rollback drv ;;
       raise (PostgresDbQueryExecutionError (label ++ str e)%string e))
    {| self := s; trace := t |}
  = if autocommit_on s
    then match fails drv (t ++ [Execute query params]) Commit with
         | None =>
             (Return tt,
              {| self := s; trace := t ++ [Execute query params; Commit] |})
         | Some e =>
             let msg := (label ++ str e)%string in
             (match fails drv (t ++ [Execute query params; Commit;
                                     LogError msg]) Rollback with
              | None => Raise (PostgresDbQueryExecutionError msg e)
              | Some e' => Raise e'
              end,
              {| self := s;
                 trace := t ++ [Execute query params; Commit; LogError msg;
                                Rollback] |})
         end
    else (Return tt, {| self := s; trace := t ++ [Execute query params] |}).
Proof.
  intros Ho He. apply is_open_inv in Ho as (c & cur & lg & u & ->).
  unfold autocommit_on, execute_then_autocommit. cbn [connection].
  run_py. rewrite He. run_py. destruct (autocommit c); run_py.
  - destruct (fails drv (t ++ [Execute query params]) Commit) as [e|];
      run_py; rewrite <- !app_assoc; cbn [app]; [|reflexivity].
    destruct (fails drv _ Rollback); reflexivity.
  - reflexivity.
Qed.

(** C5.  On an open instance, once the statement of [insert],
    [update_execute_query] or [delete_execute_query] is executed: with
    autocommit on, the commit is the call made right after the execution,
    and the method returns normally when it is accepted (when it is
    refused, the failure is handled as any other); with autocommit off the
    method returns normally without any commit, and the commit is made by
    an explicit [commit()].  Conversely, on any instance, a normal return
    means the statement was executed, followed by a commit exactly when
    autocommit is on. *)
Theorem mutation_commits_per_autocommit :
  forall drv op label,
    In (op, label)
       [(insert drv, "Error executing insert: ");
        (update_execute_query drv, "Error executing update: ");
        (delete_execute_query drv, "Error executing delete: ")] ->
    forall query params w,
      (forall w',
          op query params w = (Return tt, w') ->
          extends w w'
            (Execute query params
               :: if autocommit_on (self w) then [Commit] else []))
      /\ (is_open (self w) = true ->
          fails drv (trace w) (Execute query params) = None ->
          let executed := trace w ++ [Execute query params] in
          op query params w
          = (if autocommit_on (self w)
             then match fails drv executed Commit with
                  | None =>
                      (Return tt,
                       {| self := self w; trace := executed ++ [Commit] |})
                  | Some e =>
                      let msg := (label ++ str e)%string in
                      (match fails drv (executed ++ [Commit; LogError msg])
                                   Rollback with
                       | None => Raise (PostgresDbQueryExecutionError msg e)
                       | Some e' => Raise e'
                       end,
                       {| self := self w;
                          trace := executed ++ [Commit; LogError msg;
                                                Rollback] |})
                  end
             else (Return tt, {| self := self w; trace := executed |}))
          /\ (autocommit_on (self w) = false ->
              fails drv executed Commit = None ->
              commit drv {| self := self w; trace := executed |}
              = (Return tt,
                 {| self := self w; trace := executed ++ [Commit] |}))).
Proof.
  intros drv op label Hop query params w. split.
  - intros w' H. apply (execute_then_autocommit_inv drv).
    destruct Hop as [Hop|[Hop|[Hop|[]]]]; injection Hop as <- _;
      (apply try_except_inv in H; [exact H | handler_never_returns]).
  - intros Ho He executed. subst executed. split.
    + destruct w as [s t]. cbn [self trace] in *.
      pose proof (execute_then_autocommit_run drv label query params s t
                    Ho He) as Hrun.
      assert (Hop' : op query params {| self := s; trace := t |}
                     = try_except (execute_then_autocommit drv query params)
                         (log_rollback_raise drv label)
                         {| self := s; trace := t |})
        by (destruct Hop as [Hop|[Hop|[Hop|[]]]]; injection Hop as <- <-;
            reflexivity).
      rewrite Hop'. unfold log_rollback_raise. rewrite Hrun.
      destruct (autocommit_on s); [|reflexivity].
      destruct (fails drv (t ++ [Execute query params]) Commit) as [e|];
        cbv zeta; rewrite <- !app_assoc; reflexivity.
    + intros _ Hc.
      apply is_open_inv in Ho as (c & cur & lg & u & Hs).
      unfold commit, connection_commit. apply try_Return.
      rewrite (on_connection_run _ _ _ _ c) by (cbn [self]; now rewrite Hs).
      rewrite driver_call_run. cbn [self trace]. now rewrite Hc.
Qed.

Lemma mutation_commits_per_autocommit_witness :
  let drv := always_ok [] in
  let w := at_start (opened default_logger true false) in
  let q := "UPDATE member SET plan = %s WHERE id = %s" in
  let p := Some [VStr "gold"; VInt 1] in
  In (update_execute_query drv, "Error executing update: ")
     [(insert drv, "Error executing insert: ");
      (update_execute_query drv, "Error executing update: ");
      (delete_execute_query drv, "Error executing delete: ")]
  /\ is_open (self w) = true
  /\ fails drv (trace w) (Execute q p) = None
  /\ autocommit_on (self w) = true
  /\ update_execute_query drv q p w
     = (Return tt, {| self := self w; trace := [Execute q p; Commit] |}).
Proof.
  intros drv w q p.
  assert (Hin : In (update_execute_query drv, "Error executing update: ")
                   [(insert drv, "Error executing insert: ");
                    (update_execute_query drv, "Error executing update: ");
                    (delete_execute_query drv, "Error executing delete: ")])
    by (right; left; reflexivity).
  split; [exact Hin|]. split; [reflexivity|]. split; [reflexivity|].
  split; [reflexivity|].
  exact (proj1 (proj2 (mutation_commits_per_autocommit drv
                         (update_execute_query drv)
                         "Error executing update: " Hin q p w)
                  eq_refl eq_refl)).
Defined.

Example update_without_autocommit :
  let q := "UPDATE member SET plan = %s WHERE id = %s" in
  let p := Some [VStr "gold"; VInt 1] in
  update_execute_query (always_ok []) q p
    (at_start (opened default_logger false false))
  = (Return tt,
     {| self := opened default_logger false false;
        trace := [Execute q p] |}).
Proof. reflexivity. Qed.

Example insert_with_autocommit :
  insert (always_ok []) "INSERT INTO member (name) VALUES (%s)"
         (Some [VStr "ann"]) (at_start (opened default_logger true false))
  = (Return tt,
     {| self := opened default_logger true false;
        trace := [Execute "INSERT INTO member (name) VALUES (%s)"
                          (Some [VStr "ann"]); Commit] |}).
Proof. reflexivity. Qed.

(** ** Bulk insertion *)

Section Chunks.

Context {A : Type}.
Implicit Types (data : list A) (K : Z).

Lemma firstn_add (a b : nat) data :
  firstn (a + b)%nat data = firstn a data ++ firstn b (skipn a data).
Proof.
  revert data. induction a as [|a IH]; intros [|x data]; cbn;
    try reflexivity.
  - now rewrite firstn_nil.
  - now rewrite IH.
Qed.

(** Consecutive blocks of [k] elements make up a prefix. *)
Lemma concat_blocks (k : nat) data (m : nat) :
  List.concat (map (fun j => firstn k (skipn (j * k)%nat data)) (seq 0 m))
  = firstn (m * k)%nat data.
Proof.
  induction m as [|m IH]; [reflexivity|].
  rewrite seq_S, map_app, concat_app, IH. cbn [map List.concat plus].
  rewrite app_nil_r, <- firstn_add. f_equal. lia.
Qed.

Lemma slice_block data i K :
  0 <= i <= Z.of_nat (List.length data) -> 0 < K ->
  slice data i (i + K) = firstn (Z.to_nat K) (skipn (Z.to_nat i) data).
Proof.
  intros Hi HK. unfold slice, adjust_index.
  destruct (Z.ltb_spec i 0); [lia|].
  destruct (Z.ltb_spec (i + K) 0); [lia|].
  rewrite (Z.min_l i) by lia.
  destruct (Z.le_ge_cases (i + K) (Z.of_nat (List.length data))).
  - rewrite Z.min_l by lia. f_equal. lia.
  - rewrite Z.min_r by lia.
    rewrite !firstn_all2; try reflexivity; rewrite length_skipn; lia.
Qed.

Lemma chunk_count_spec data K :
  0 < K ->
  (List.length data <= chunk_count data K * Z.to_nat K)%nat
  /\ forall j, (j < chunk_count data K)%nat ->
               (j * Z.to_nat K < List.length data)%nat.
Proof.
  intros HK. unfold chunk_count, range_length.
  destruct (Z.ltb_spec 0 K); [|lia].
  set (n := List.length data).
  destruct (Z.ltb_spec 0 (Z.of_nat n)) as [Hn|Hn].
  - pose proof (Z.mul_div_le (Z.of_nat n - 0 - 1) K HK) as Hlo.
    pose proof (Z.mul_succ_div_gt (Z.of_nat n - 0 - 1) K HK) as Hhi.
    assert (Hq : 0 <= (Z.of_nat n - 0 - 1) / K)
      by (apply Z.div_pos; lia).
    set (q := (Z.of_nat n - 0 - 1) / K) in *.
    split.
    + apply Nat2Z.inj_le. rewrite Nat2Z.inj_mul, !Z2Nat.id by lia. nia.
    + intros j Hj. apply Nat2Z.inj_lt.
      rewrite Nat2Z.inj_mul, Z2Nat.id by lia.
      assert (Z.of_nat j <= q) by lia. nia.
  - split; [lia|]. intros j Hj. cbn in Hj. lia.
Qed.

Lemma bulk_chunks_blocks data K :
  0 < K ->
  bulk_chunks data K
  = map (fun j => firstn (Z.to_nat K) (skipn (j * Z.to_nat K)%nat data))
        (seq 0 (chunk_count data K)).
Proof.
  intros HK. unfold bulk_chunks, range.
  destruct (Z.eqb_spec K 0); [lia|].
  fold (chunk_count data K). rewrite map_map.
  apply map_ext_in. intros j Hj. apply in_seq in Hj.
  destruct (chunk_count_spec data K HK) as [_ Hlt].
  specialize (Hlt j ltac:(lia)).
  rewrite slice_block by nia.
  do 2 f_equal. rewrite Z.add_0_l, Z2Nat.inj_mul, Nat2Z.id by lia.
  reflexivity.
Qed.

(** The chunks, one after the other, are the rows in input order. *)
Lemma concat_bulk_chunks data K : 0 < K -> List.concat (bulk_chunks data K) = data.
Proof.
  intros HK. rewrite bulk_chunks_blocks, concat_blocks by exact HK.
  apply firstn_all2, chunk_count_spec, HK.
Qed.

(** Every chunk holds at least one and at most [K] rows. *)
Lemma bulk_chunks_sizes data K :
  0 < K ->
  Forall (fun ch => (0 < List.length ch <= Z.to_nat K)%nat)
         (bulk_chunks data K).
Proof.
  intros HK. rewrite bulk_chunks_blocks by exact HK.
  apply Forall_forall. intros ch Hch.
  apply in_map_iff in Hch as (j & <- & Hj). apply in_seq in Hj.
  destruct (chunk_count_spec data K HK) as [_ Hlt].
  specialize (Hlt j ltac:(lia)).
  rewrite length_firstn, length_skipn. lia.
Qed.

(** Every chunk but the last holds exactly [K] rows. *)
Lemma bulk_chunks_full data K j :
  0 < K -> (S j < List.length (bulk_chunks data K))%nat ->
  List.length (nth j (bulk_chunks data K) []) = Z.to_nat K.
Proof.
  intros HK. rewrite bulk_chunks_blocks by exact HK.
  rewrite length_map, length_seq. intros Hj.
  rewrite (nth_indep _ [] (firstn (Z.to_nat K)
                             (skipn (0 * Z.to_nat K)%nat data)))
    by (rewrite length_map, length_seq; lia).
  rewrite (map_nth (fun j => firstn (Z.to_nat K)
                               (skipn (j * Z.to_nat K)%nat data))).
  rewrite seq_nth by lia. cbn [plus].
  destruct (chunk_count_spec data K HK) as [_ Hlt].
  specialize (Hlt (S j) Hj).
  rewrite length_firstn, length_skipn. cbn in Hlt. lia.
Qed.

End Chunks.

Lemma applications_app e1 e2 :
  applications (e1 ++ e2) = applications e1 ++ applications e2.
Proof. apply flat_map_app. Qed.

Lemma applications_executemany query chunks :
  applications (map (ExecuteMany query) chunks)
  = map (pair query) (List.concat chunks).
Proof.
  induction chunks as [|ch chunks IH]; [reflexivity|].
  cbn [map List.concat]. rewrite map_app, <- IH. reflexivity.
Qed.

Lemma applications_row_by_row query data :
  applications (row_by_row query data) = map (pair query) data.
Proof.
  induction data as [|r data IH]; [reflexivity|].
  cbn. f_equal. exact IH.
Qed.

Lemma commits_executemany query chunks :
  filter is_commit (map (ExecuteMany query) chunks) = [].
Proof. induction chunks; [reflexivity | exact IHchunks]. Qed.

Lemma for_each_executemany_inv drv query (f : Z -> list (list value)) :
  forall indices w w',
    for_each indices (fun i => cursor_executemany drv query (f i)) w
      = (Return tt, w') ->
    extends w w' (map (fun i => ExecuteMany query (f i)) indices).
Proof.
  induction indices as [|i indices IH]; intros w w' H.
  - injection H as <-. apply extends_refl.
  - cbn [for_each] in H. apply bind_inv in H as ([] & w1 & Hi & H).
    apply on_cursor_inv in Hi as (_ & _ & ->).
    apply IH in H as [Hs Ht]. cbn [self trace] in *.
    split; [exact Hs|]. rewrite Ht, <- app_assoc. reflexivity.
Qed.

Lemma for_each_executemany_run drv query (f : Z -> list (list value)) c :
  (forall t ev, fails drv t ev = None) ->
  forall indices w,
    cursor (self w) = Some c ->
    for_each indices (fun i => cursor_executemany drv query (f i)) w
    = (Return tt,
       {| self := self w;
          trace := trace w ++ map (fun i => ExecuteMany query (f i)) indices
       |}).
Proof.
  intros Hok. induction indices as [|i indices IH]; intros w Hc.
  - cbn. rewrite app_nil_r. now destruct w.
  - cbn [for_each map]. erewrite bind_Return.
    2:{ unfold cursor_executemany.
        rewrite (on_cursor_run _ _ _ _ c Hc), driver_call_run, Hok.
        reflexivity. }
    rewrite IH by exact Hc. cbn [self trace]. now rewrite <- app_assoc.
Qed.

(** On a driver that accepts every call, a [bulk_insert] with a positive
    chunk size on an open instance does return normally. *)
Lemma bulk_insert_returns drv query data K w :
  (forall t ev, fails drv t ev = None) ->
  is_open (self w) = true -> 0 < K ->
  bulk_insert drv query data K w
  = (Return tt,
     {| self := self w;
        trace := trace w ++ map (ExecuteMany query) (bulk_chunks data K)
                 ++ if autocommit_on (self w) then [Commit] else [] |}).
Proof.
  intros Hok Ho HK.
  apply is_open_inv in Ho as (c & cur & lg & u & Hs).
  unfold bulk_insert. apply try_Return. unfold bulk_insert_try, bulk_chunks.
  unfold range. destruct (Z.eqb_spec K 0); [lia|].
  unfold lift at 1. unfold bind at 1.
  erewrite bind_Return.
  2:{ apply (for_each_executemany_run drv query
               (fun i => slice data i (i + K)) cur Hok).
      now rewrite Hs. }
  erewrite bind_Return.
  2:{ unfold connection_autocommit, bind, get_self, ret. cbn [self].
      rewrite Hs. reflexivity. }
  unfold autocommit_on. rewrite Hs, !map_map. cbn [connection autocommit].
  destruct (autocommit c).
  - unfold connection_commit.
    rewrite (on_connection_run _ _ _ _ c) by reflexivity.
    rewrite driver_call_run, Hok. cbn [self trace].
    now rewrite <- app_assoc.
  - unfold ret. now rewrite app_nil_r.
Qed.

(** The batches of the spec's test: 120 rows in chunks of 50 and of 1000. *)
Example chunks_of_120_rows :
  map (@List.length _) (bulk_chunks (member_rows 120) 50)
    = [50; 50; 20]%nat
  /\ map (@List.length _) (bulk_chunks (member_rows 120) 1000) = [120%nat].
Proof. split; vm_compute; reflexivity. Qed.

(** C6.  For a positive chunk size, a [bulk_insert] that returns normally
    has passed the rows to [executemany] in input order, in chunks of at
    least one and at most [chunk_size] rows; the statement applications this
    makes are those of executing the statement row by row, one per row
    whatever the chunk size; and the only commit is a single one after the
    last chunk, made when autocommit is on. *)
Theorem bulk_insert_row_by_row :
  forall drv query data K w w',
    0 < K ->
    bulk_insert drv query data K w = (Return tt, w') ->
    let commits := if autocommit_on (self w) then [Commit] else [] in
    let calls := map (ExecuteMany query) (bulk_chunks data K) ++ commits in
    extends w w' calls
    /\ List.concat (bulk_chunks data K) = data
    /\ Forall (fun ch => (0 < List.length ch <= Z.to_nat K)%nat)
              (bulk_chunks data K)
    /\ applications calls = applications (row_by_row query data)
    /\ List.length (applications calls) = List.length data
    /\ filter is_commit calls = commits.
Proof.
  intros drv query data K w w' HK H commits calls.
  apply try_except_inv in H; [|handler_never_returns].
  unfold bulk_insert_try in H.
  apply bind_inv in H as (indices & w0 & Hr & H).
  unfold lift in Hr. injection Hr as Hr <-.
  apply bind_inv in H as ([] & w1 & Hloop & H).
  apply for_each_executemany_inv
    with (f := fun i => slice data i (i + K)) in Hloop.
  apply bind_inv in H as (ac & w2 & Ha & H).
  apply connection_autocommit_inv in Ha as (-> & c & Hc & <-).
  assert (Hchunks : map (fun i => ExecuteMany query (slice data i (i + K)))
                        indices
                    = map (ExecuteMany query) (bulk_chunks data K)).
  { unfold bulk_chunks. rewrite Hr, map_map. reflexivity. }
  rewrite Hchunks in Hloop.
  assert (Hac : autocommit_on (self w) = autocommit c).
  { unfold autocommit_on. destruct Hloop as [<- _]. now rewrite Hc. }
  assert (Hext : extends w w' calls).
  { subst calls commits. rewrite Hac. destruct (autocommit c).
    - apply on_connection_inv in H as (_ & _ & ->).
      eapply extends_trans; [exact Hloop|]. split; reflexivity.
    - injection H as <-. rewrite app_nil_r. exact Hloop. }
  assert (Happ : applications calls = map (pair query) data).
  { subst calls. rewrite applications_app, applications_executemany.
    rewrite concat_bulk_chunks by exact HK.
    subst commits. destruct (autocommit_on (self w)); cbn;
      now rewrite app_nil_r. }
  repeat split.
  - apply Hext.
  - apply Hext.
  - apply concat_bulk_chunks, HK.
  - apply bulk_chunks_sizes, HK.
  - rewrite Happ, applications_row_by_row. reflexivity.
  - rewrite Happ. apply length_map.
  - subst calls. rewrite filter_app, commits_executemany.
    subst commits. now destruct (autocommit_on (self w)).
Qed.

Lemma bulk_insert_row_by_row_witness :
  let drv := always_ok [] in
  let w := at_start (opened default_logger true false) in
  let q := "INSERT INTO member (id, name) VALUES (%s, %s)" in
  let data := member_rows 7 in
  let calls := [ExecuteMany q (member_rows 3);
                ExecuteMany q (skipn 3 (member_rows 6));
                ExecuteMany q (skipn 6 (member_rows 7));
                Commit] in
  let w' := {| self := self w; trace := calls |} in
  0 < 3
  /\ bulk_insert drv q data 3 w = (Return tt, w')
  /\ extends w w'
       (map (ExecuteMany q) (bulk_chunks data 3)
          ++ if autocommit_on (self w) then [Commit] else [])
  /\ List.concat (bulk_chunks data 3) = data
  /\ applications calls = applications (row_by_row q data).
Proof.
  intros drv w q data calls w'.
  assert (Hrun : bulk_insert drv q data 3 w = (Return tt, w'))
    by reflexivity.
  destruct (bulk_insert_row_by_row drv q data 3 w w' eq_refl Hrun)
    as (Hext & Hcat & _ & Happ & _).
  repeat split; assumption.
Defined.

(** C10, as stated, fails for a negative chunk size: [range(0, 2, -1)] is
    empty rather than an error, so the loop body never runs, nothing is
    executed, the commit of the autocommit branch is made and [bulk_insert]
    returns normally, with no rollback and no error. *)
Lemma bulk_insert_negative_chunk_size_returns :
  let drv := always_ok [] in
  let w := at_start (opened default_logger true false) in
  let q := "INSERT INTO member (id, name) VALUES (%s, %s)" in
  member_rows 2 <> []
  /\ -1 <= 0
  /\ bulk_insert drv q (member_rows 2) (-1) w
     = (Return tt, {| self := self w; trace := [Commit] |})
  /\ ~ fails_with_query_execution_error
         (bulk_insert drv q (member_rows 2) (-1) w).
Proof.
  intros drv w q. split; [discriminate|]. split; [lia|].
  split; [reflexivity|].
  intros (msg & cause & w' & H). discriminate H.
Qed.

(** C10, amended.  With chunk size 0, [range] raises [ValueError] before
    any chunk is formed: nothing is executed, the failure is logged, a
    rollback is attempted, and [PostgresDbQueryExecutionError] carrying the
    [ValueError] is raised, unless the rollback call itself raises, in
    which case its error is what reaches the caller. *)
Theorem bulk_insert_zero_chunk_size :
  forall drv query data w,
    is_open (self w) = true ->
    let cause := ValueError "range() arg 3 must not be zero" in
    let msg :=
      "Error executing bulk insert: range() arg 3 must not be zero" in
    bulk_insert drv query data 0 w
    = (match fails drv (trace w ++ [LogError msg]) Rollback with
       | None => Raise (PostgresDbQueryExecutionError msg cause)
       | Some e' => Raise e'
       end,
       {| self := self w; trace := trace w ++ [LogError msg; Rollback] |}).
Proof.
  intros drv query data [s t] Ho cause msg. cbn [self trace] in *.
  apply is_open_inv in Ho as (c & cur & lg & u & ->).
  unfold bulk_insert, bulk_insert_try, range. cbn [Z.eqb].
  run_py. cbn [str].
  change ("Error executing bulk insert: "
          ++ "range() arg 3 must not be zero")%string with msg.
  rewrite <- app_assoc. cbn [app].
  destruct (fails drv _ Rollback); reflexivity.
Qed.

Lemma bulk_insert_zero_chunk_size_witness :
  let drv := always_ok [] in
  let w := at_start (opened default_logger true false) in
  let q := "INSERT INTO member (id, name) VALUES (%s, %s)" in
  let msg :=
    "Error executing bulk insert: range() arg 3 must not be zero" in
  bulk_insert drv q (member_rows 2) 0 w
  = (Raise (PostgresDbQueryExecutionError msg
              (ValueError "range() arg 3 must not be zero")),
     {| self := self w; trace := trace w ++ [LogError msg; Rollback] |}).
Proof.
  intros drv w q msg.
  apply (bulk_insert_zero_chunk_size drv q (member_rows 2) w); reflexivity.
Defined.

(** ** Computations that leave the instance alone *)

Section Grows.

Variable drv : driver.

Lemma grows_pure {A} (r : result A) : grows (lift r).
Proof.
  intros w r' w1 H. injection H as _ <-. split; [reflexivity|].
  exists []. now rewrite app_nil_r.
Qed.

Lemma grows_ret {A} (a : A) : grows (ret a).
Proof. exact (grows_pure (Return a)). Qed.

Lemma grows_raise {A} e : grows (@raise A e).
Proof. exact (grows_pure (Raise e)). Qed.

Lemma grows_bind {A B} (m : M A) (k : A -> M B) :
  grows m -> (forall a, grows (k a)) -> grows (bind m k).
Proof.
  intros Hm Hk w r w2. unfold bind.
  destruct (m w) as [[a|e] w1] eqn:E; intros H.
  - destruct (Hm _ _ _ E) as (S1 & e1 & T1).
    destruct (Hk a _ _ _ H) as (S2 & e2 & T2).
    split; [congruence|]. exists (e1 ++ e2).
    now rewrite T2, T1, app_assoc.
  - injection H as <- <-. exact (Hm _ _ _ E).
Qed.

Lemma grows_try {A} (m : M A) h :
  grows m -> (forall e, grows (h e)) -> grows (try_except m h).
Proof.
  intros Hm Hh w r w2. unfold try_except.
  destruct (m w) as [[a|e] w1] eqn:E; intros H.
  - injection H as <- <-. exact (Hm _ _ _ E).
  - destruct (Hm _ _ _ E) as (S1 & e1 & T1).
    destruct (Hh e _ _ _ H) as (S2 & e2 & T2).
    split; [congruence|]. exists (e1 ++ e2).
    now rewrite T2, T1, app_assoc.
Qed.

Lemma grows_get_self : grows get_self.
Proof.
  intros w r w1 H. injection H as _ <-. split; [reflexivity|].
  exists []. now rewrite app_nil_r.
Qed.

Lemma grows_get_trace : grows get_trace.
Proof.
  intros w r w1 H. injection H as _ <-. split; [reflexivity|].
  exists []. now rewrite app_nil_r.
Qed.

Lemma grows_emit ev : grows (emit ev).
Proof.
  intros w r w1 H. injection H as _ <-. split; [reflexivity|].
  now exists [ev].
Qed.

Lemma grows_driver_call ev : grows (driver_call drv ev).
Proof.
  intros w r w1. rewrite driver_call_run. intros H. injection H as _ <-.
  split; [reflexivity|]. now exists [ev].
Qed.

Lemma grows_on_connection method ev : grows (on_connection drv method ev).
Proof.
  apply grows_bind; [apply grows_get_self|]. intros s.
  destruct (connection s); [apply grows_driver_call | apply grows_raise].
Qed.

Lemma grows_on_cursor method ev : grows (on_cursor drv method ev).
Proof.
  apply grows_bind; [apply grows_get_self|]. intros s.
  destruct (cursor s); [apply grows_driver_call | apply grows_raise].
Qed.

Lemma grows_logger_info msg : grows (logger_info msg).
Proof.
  apply grows_bind; [apply grows_get_self|]. intros s.
  destruct (logger s); [apply grows_emit | apply grows_raise].
Qed.

Lemma grows_logger_error msg : grows (logger_error msg).
Proof.
  apply grows_bind; [apply grows_get_self|]. intros s.
  destruct (logger s); [apply grows_emit | apply grows_raise].
Qed.

Lemma grows_connection_autocommit : grows connection_autocommit.
Proof.
  apply grows_bind; [apply grows_get_self|]. intros s.
  destruct (connection s); [apply grows_ret | apply grows_raise].
Qed.

Lemma grows_read_use_dict_cursor : grows read_use_dict_cursor.
Proof.
  apply grows_bind; [apply grows_get_self|]. intros s.
  destruct (use_dict_cursor s); [apply grows_ret | apply grows_raise].
Qed.

Lemma grows_for_each {A} (xs : list A) body :
  (forall x, grows (body x)) -> grows (for_each xs body).
Proof.
  intros Hb. induction xs as [|x xs IH]; [apply grows_ret|].
  cbn [for_each]. apply grows_bind; [apply Hb | intros _; exact IH].
Qed.

Lemma grows_if {A} (b : bool) (m1 m2 : M A) :
  grows m1 -> grows m2 -> grows (if b then m1 else m2).
Proof. now destruct b. Qed.

End Grows.

Create HintDb grows discriminated.
Create HintDb swallow discriminated.
#[local] Hint Resolve grows_pure grows_ret grows_raise grows_get_self
  grows_get_trace grows_emit grows_driver_call grows_on_connection
  grows_on_cursor grows_logger_info grows_logger_error
  grows_connection_autocommit grows_read_use_dict_cursor grows_if : grows.

Ltac grows :=
  repeat first
    [ solve [auto with grows]
    | apply grows_if
    | apply grows_for_each; intros
    | apply grows_try; [|intros]
    | apply grows_bind; [|intros] ].

Section Bodies.

Variable drv : driver.

Lemma grows_select_execute_query_try q p :
  grows (select_execute_query_try drv q p).
Proof.
  unfold select_execute_query_try, cursor_execute, cursor_fetchall. grows.
Qed.

Lemma grows_select_get_count_query_try q p :
  grows (select_get_count_query_try drv q p).
Proof.
  unfold select_get_count_query_try, cursor_execute, cursor_fetchone. grows.
Qed.

Lemma grows_execute_then_autocommit q p :
  grows (execute_then_autocommit drv q p).
Proof.
  unfold execute_then_autocommit, cursor_execute, connection_commit. grows.
Qed.

Lemma grows_bulk_insert_try q data K : grows (bulk_insert_try drv q data K).
Proof.
  unfold bulk_insert_try, cursor_executemany, connection_commit. grows.
Qed.

Lemma grows_close_try : grows (close_try drv).
Proof.
  unfold close_try, cursor_close, connection_close. grows.
Qed.

End Bodies.

(** ** No driver failure is swallowed *)

Section Swallow.

Variable drv : driver.

Lemma all_succeeded_app t e1 : forall e2,
  all_succeeded drv t e1 -> all_succeeded drv (t ++ e1) e2 ->
  all_succeeded drv t (e1 ++ e2).
Proof.
  revert t. induction e1 as [|ev e1 IH]; intros t e2 H1 H2.
  - now rewrite app_nil_r in H2.
  - destruct H1 as [Hev H1]. split; [exact Hev|].
    apply IH; [exact H1|]. now rewrite <- app_assoc.
Qed.

Lemma swallows_nothing_quiet {A} (m : M A) :
  (forall w r w1, m w = (r, w1) -> w1 = w) -> swallows_nothing drv m.
Proof.
  intros Hq w a w1 H. apply Hq in H as ->. exists [].
  split; [now rewrite app_nil_r | exact I].
Qed.

Lemma swallows_nothing_lift {A} (r : result A) : swallows_nothing drv (lift r).
Proof.
  apply swallows_nothing_quiet. intros w r' w1 H. now injection H.
Qed.

Lemma swallows_nothing_ret {A} (a : A) : swallows_nothing drv (ret a).
Proof. exact (swallows_nothing_lift (Return a)). Qed.

Lemma swallows_nothing_raise {A} e : swallows_nothing drv (@raise A e).
Proof. exact (swallows_nothing_lift (Raise e)). Qed.

Lemma swallows_nothing_get_self : swallows_nothing drv get_self.
Proof.
  apply swallows_nothing_quiet. intros w r w1 H. now injection H.
Qed.

Lemma swallows_nothing_get_trace : swallows_nothing drv get_trace.
Proof.
  apply swallows_nothing_quiet. intros w r w1 H. now injection H.
Qed.

Lemma swallows_nothing_bind {A B} (m : M A) (k : A -> M B) :
  swallows_nothing drv m -> (forall a, swallows_nothing drv (k a)) ->
  swallows_nothing drv (bind m k).
Proof.
  intros Hm Hk w b w2 H.
  apply bind_inv in H as (a & w1 & H1 & H2).
  destruct (Hm _ _ _ H1) as (e1 & T1 & S1).
  destruct (Hk a _ _ _ H2) as (e2 & T2 & S2).
  exists (e1 ++ e2). split.
  - now rewrite T2, T1, app_assoc.
  - apply all_succeeded_app; [exact S1|]. now rewrite <- T1.
Qed.

Lemma swallows_nothing_try {A} (m : M A) h :
  swallows_nothing drv m -> (forall e, never_returns (h e)) ->
  swallows_nothing drv (try_except m h).
Proof.
  intros Hm Hh w a w1 H. apply try_except_inv in H; [|exact Hh].
  exact (Hm _ _ _ H).
Qed.

Lemma swallows_nothing_log ev : is_call ev = false ->
  swallows_nothing drv (emit ev).
Proof.
  intros Hev w a w1 H. injection H as _ <-. exists [ev].
  split; [reflexivity|]. split; [|exact I]. rewrite Hev. discriminate.
Qed.

Lemma swallows_nothing_driver_call ev : swallows_nothing drv (driver_call drv ev).
Proof.
  intros w a w1 H. apply driver_call_inv in H as (Hok & ->).
  exists [ev]. split; [reflexivity|]. split; [|exact I]. now intros _.
Qed.

Lemma swallows_nothing_on_connection method ev :
  swallows_nothing drv (on_connection drv method ev).
Proof.
  apply swallows_nothing_bind; [apply swallows_nothing_get_self|].
  intros s. destruct (connection s);
    [apply swallows_nothing_driver_call | apply swallows_nothing_raise].
Qed.

Lemma swallows_nothing_on_cursor method ev :
  swallows_nothing drv (on_cursor drv method ev).
Proof.
  apply swallows_nothing_bind; [apply swallows_nothing_get_self|].
  intros s. destruct (cursor s);
    [apply swallows_nothing_driver_call | apply swallows_nothing_raise].
Qed.

Lemma swallows_nothing_logger_info msg : swallows_nothing drv (logger_info msg).
Proof.
  apply swallows_nothing_bind; [apply swallows_nothing_get_self|].
  intros s. destruct (logger s);
    [now apply swallows_nothing_log | apply swallows_nothing_raise].
Qed.

Lemma swallows_nothing_connection_autocommit :
  swallows_nothing drv connection_autocommit.
Proof.
  apply swallows_nothing_bind; [apply swallows_nothing_get_self|].
  intros s. destruct (connection s);
    [apply swallows_nothing_ret | apply swallows_nothing_raise].
Qed.

Lemma swallows_nothing_read_use_dict_cursor :
  swallows_nothing drv read_use_dict_cursor.
Proof.
  apply swallows_nothing_bind; [apply swallows_nothing_get_self|].
  intros s. destruct (use_dict_cursor s);
    [apply swallows_nothing_ret | apply swallows_nothing_raise].
Qed.

Lemma swallows_nothing_for_each {A} (xs : list A) body :
  (forall x, swallows_nothing drv (body x)) ->
  swallows_nothing drv (for_each xs body).
Proof.
  intros Hb. induction xs as [|x xs IH]; [apply swallows_nothing_ret|].
  cbn [for_each].
  apply swallows_nothing_bind; [apply Hb | intros _; exact IH].
Qed.

Lemma swallows_nothing_if {A} (b : bool) (m1 m2 : M A) :
  swallows_nothing drv m1 -> swallows_nothing drv m2 ->
  swallows_nothing drv (if b then m1 else m2).
Proof. now destruct b. Qed.

End Swallow.

#[local] Hint Resolve swallows_nothing_lift swallows_nothing_ret
  swallows_nothing_raise swallows_nothing_get_self swallows_nothing_get_trace
  swallows_nothing_driver_call swallows_nothing_on_connection
  swallows_nothing_on_cursor swallows_nothing_logger_info
  swallows_nothing_connection_autocommit
  swallows_nothing_read_use_dict_cursor swallows_nothing_if : swallow.

Ltac swallows_nothing :=
  repeat first
    [ solve [auto with swallow]
    | apply swallows_nothing_if
    | apply swallows_nothing_for_each; intros
    | apply swallows_nothing_try; [|handler_never_returns]
    | apply swallows_nothing_bind; [|intros] ].

(** Whenever a method returns normally, every call it made into the driver
    went through: no method returns after a failed execute, fetch, commit,
    rollback or release. *)
Lemma methods_swallow_nothing drv :
  (forall q p, swallows_nothing drv (select_execute_query drv q p))
  /\ (forall q p, swallows_nothing drv (select_get_count_query drv q p))
  /\ (forall q p, swallows_nothing drv (insert drv q p))
  /\ (forall q data K, swallows_nothing drv (bulk_insert drv q data K))
  /\ (forall q p, swallows_nothing drv (update_execute_query drv q p))
  /\ (forall q p, swallows_nothing drv (delete_execute_query drv q p))
  /\ swallows_nothing drv (commit drv)
  /\ swallows_nothing drv (rollback drv)
  /\ swallows_nothing drv (close drv).
Proof.
  repeat split; intros;
    unfold select_execute_query, select_execute_query_try,
      select_get_count_query, select_get_count_query_try,
      insert, update_execute_query, delete_execute_query,
      execute_then_autocommit, bulk_insert, bulk_insert_try,
      commit, rollback, close, close_try,
      cursor_execute, cursor_executemany, cursor_fetchall, cursor_fetchone,
      cursor_close, connection_commit, connection_rollback, connection_close;
    swallows_nothing.
Qed.

(** ** Closing *)

Lemma close_try_inv drv w w' :
  close_try drv w = (Return tt, w') -> extends w w' (released (self w)).
Proof.
  unfold close_try, released. intros H.
  apply bind_inv in H as (s & w0 & Hs & H). injection Hs as <- <-.
  apply bind_inv in H as ([] & w1 & Hcur & H).
  apply bind_inv in H as (s' & w2 & Hs & H). injection Hs as <- <-.
  assert (E1 : extends w w1 (if truthy (cursor (self w))
                             then [CursorClose] else [])).
  { destruct (truthy (cursor (self w))).
    - apply on_cursor_inv in Hcur as (_ & _ & ->). split; reflexivity.
    - injection Hcur as <-. apply extends_refl. }
  eapply extends_trans; [exact E1|].
  destruct E1 as [E1 _]. rewrite E1 in H.
  destruct (truthy (connection (self w))).
  - apply bind_inv in H as ([] & w3 & Hconn & H).
    apply on_connection_inv in Hconn as (_ & _ & ->).
    unfold logger_info, bind, get_self in H. cbn [self] in H.
    destruct (logger (self w1)); [|discriminate].
    injection H as <-. split; cbn; [reflexivity|].
    now rewrite <- app_assoc.
  - injection H as <-. apply extends_refl.
Qed.




(** ** The failure policy *)

Section Policy.

Variable drv : driver.

Lemma try_log_rollback_raise {A} (body : M A) label w :
  grows body -> is_open (self w) = true ->
  logged_rolled_back_wrapped drv label (body w)
    (try_except body (log_rollback_raise drv label) w).
Proof.
  intros Hb Ho. unfold logged_rolled_back_wrapped, try_except.
  destruct (body w) as [[a|e] w1] eqn:E; [reflexivity|].
  destruct (Hb _ _ _ E) as (Hs & _).
  apply is_open_inv in Ho as (c & cur & lg & u & Hself).
  rewrite Hself in Hs.
  unfold log_rollback_raise, connection_rollback, bind.
  rewrite (logger_error_run _ _ lg) by now rewrite Hs.
  cbv beta iota.
  rewrite (on_connection_run _ _ _ _ c) by (cbn; now rewrite Hs).
  rewrite driver_call_run. cbn [self trace]. rewrite <- app_assoc.
  destruct (fails drv _ Rollback); reflexivity.
Qed.

Lemma try_log_raise label (body : M unit) w :
  grows body -> is_open (self w) = true ->
  logged_wrapped label (body w)
    (try_except body
       (fun e =>
          logger_error (label ++ str e)%string ;;
          raise (PostgresDbQueryExecutionError (label ++ str e)%string e))
       w).
Proof.
  intros Hb Ho. unfold logged_wrapped, try_except.
  destruct (body w) as [[a|e] w1] eqn:E; [reflexivity|].
  destruct (Hb _ _ _ E) as (Hs & _).
  apply is_open_inv in Ho as (c & cur & lg & u & Hself).
  rewrite Hself in Hs. unfold bind.
  rewrite (logger_error_run _ _ lg) by now rewrite Hs.
  reflexivity.
Qed.

(** A driver failure inside a [try] block is a failure of the block: the
    statement that does not execute, and the commit that autocommit makes. *)
Lemma execute_failure_raises query params w e :
  truthy (cursor (self w)) = true ->
  fails drv (trace w) (Execute query params) = Some e ->
  let w1 := {| self := self w; trace := trace w ++ [Execute query params] |} in
  select_execute_query_try drv query params w = (Raise e, w1)
  /\ select_get_count_query_try drv query params w = (Raise e, w1)
  /\ execute_then_autocommit drv query params w = (Raise e, w1).
Proof.
  intros Hc He w1.
  destruct (cursor (self w)) as [c|] eqn:Ec; [|discriminate].
  unfold select_execute_query_try, select_get_count_query_try,
    execute_then_autocommit, cursor_execute.
  repeat split; (erewrite bind_Raise; [reflexivity|]);
    rewrite (on_cursor_run _ _ _ _ c Ec), driver_call_run, He; reflexivity.
Qed.

End Policy.

(** C4, as stated, fails when the rollback made by the handler fails too:
    the statement's failure is logged, the rollback is attempted, and it is
    the rollback's own driver error that reaches the caller, not a
    [PostgresDbQueryExecutionError].  And a failing [commit()] is logged and
    wrapped without any rollback attempt. *)
Lemma rollback_failure_escapes_unwrapped :
  let w := at_start (opened default_logger false false) in
  select_execute_query connection_lost "SELECT 1" None w
  = (Raise (Psycopg2Error "connection already closed"),
     {| self := self w;
        trace := [Execute "SELECT 1" None;
                  LogError "Error executing query: server closed the connection unexpectedly";
                  Rollback] |})
  /\ ~ fails_with_query_execution_error
         (select_execute_query connection_lost "SELECT 1" None w)
  /\ commit connection_lost w
     = (Raise (PostgresDbQueryExecutionError
                 "Error committing transaction: connection already closed"
                 (Psycopg2Error "connection already closed")),
        {| self := self w;
           trace := [Commit;
                     LogError "Error committing transaction: connection already closed"]
        |}).
Proof.
  intros w. split; [reflexivity|]. split; [|reflexivity].
  intros (msg & cause & w' & H). discriminate H.
Qed.

(** C4, amended.  On an open instance, each of the six statement methods
    passes on the normal return of its [try] block, and on a failure of the
    block logs the failure with its cause, then attempts a rollback, then
    raises [PostgresDbQueryExecutionError] carrying the cause, provided the
    rollback call itself does not raise (when it does, its error
    propagates).  [commit()] and [rollback()] log a failure and raise
    [PostgresDbQueryExecutionError] carrying the cause, with no rollback
    attempt.  In no case does a failed block lead to a normal return. *)
Theorem failures_logged_rolled_back_wrapped :
  forall drv w,
    is_open (self w) = true ->
    (forall q p,
        logged_rolled_back_wrapped drv "Error executing query: "
          (select_execute_query_try drv q p w)
          (select_execute_query drv q p w))
    /\ (forall q p,
          logged_rolled_back_wrapped drv "Error getting row count: "
            (select_get_count_query_try drv q p w)
            (select_get_count_query drv q p w))
    /\ (forall q p,
          logged_rolled_back_wrapped drv "Error executing insert: "
            (execute_then_autocommit drv q p w) (insert drv q p w))
    /\ (forall q data K,
          logged_rolled_back_wrapped drv "Error executing bulk insert: "
            (bulk_insert_try drv q data K w) (bulk_insert drv q data K w))
    /\ (forall q p,
          logged_rolled_back_wrapped drv "Error executing update: "
            (execute_then_autocommit drv q p w)
            (update_execute_query drv q p w))
    /\ (forall q p,
          logged_rolled_back_wrapped drv "Error executing delete: "
            (execute_then_autocommit drv q p w)
            (delete_execute_query drv q p w))
    /\ logged_wrapped "Error committing transaction: "
         (connection_commit drv w) (commit drv w)
    /\ logged_wrapped "Error rolling back transaction: "
         (connection_rollback drv w) (rollback drv w).
Proof.
  intros drv w Ho. repeat split; intros.
  - apply (try_log_rollback_raise drv _ "Error executing query: ");
      [apply grows_select_execute_query_try | exact Ho].
  - apply (try_log_rollback_raise drv _ "Error getting row count: ");
      [apply grows_select_get_count_query_try | exact Ho].
  - apply (try_log_rollback_raise drv _ "Error executing insert: ");
      [apply grows_execute_then_autocommit | exact Ho].
  - apply (try_log_rollback_raise drv _ "Error executing bulk insert: ");
      [apply grows_bulk_insert_try | exact Ho].
  - apply (try_log_rollback_raise drv _ "Error executing update: ");
      [apply grows_execute_then_autocommit | exact Ho].
  - apply (try_log_rollback_raise drv _ "Error executing delete: ");
      [apply grows_execute_then_autocommit | exact Ho].
  - apply (try_log_raise "Error committing transaction: ");
      [apply grows_on_connection | exact Ho].
  - apply (try_log_raise "Error rolling back transaction: ");
      [apply grows_on_connection | exact Ho].
Qed.

Lemma failures_logged_rolled_back_wrapped_witness :
  let drv := connection_lost in
  let w := at_start (opened default_logger false false) in
  is_open (self w) = true
  /\ logged_rolled_back_wrapped drv "Error executing query: "
       (select_execute_query_try drv "SELECT 1" None w)
       (select_execute_query drv "SELECT 1" None w).
Proof.
  intros drv w. split; [reflexivity|].
  exact (proj1 (failures_logged_rolled_back_wrapped drv w eq_refl)
           "SELECT 1" None).
Defined.

Example malformed_statement_is_rolled_back :
  let w := at_start (opened default_logger false true) in
  let msg := "Error executing query: syntax error at or near FORM" in
  select_execute_query rejects_statements "SELECT * FORM member" None w
  = (Raise (PostgresDbQueryExecutionError msg
              (Psycopg2Error "syntax error at or near FORM")),
     {| self := self w;
        trace := [Execute "SELECT * FORM member" None; LogError msg;
                  Rollback] |}).
Proof. reflexivity. Qed.

(** * Further properties *)

(** ** The test of line 125 *)

Module IsSelect.
Import PyStr.

Lemma isspace_lower_char_eq c : isspace (lower_char c) = isspace c.
Proof.
  destruct c as [[] [] [] [] [] [] [] []]; vm_compute; reflexivity.
Qed.

Lemma lower_append s1 s2 :
  lower (s1 ++ s2) = (lower s1 ++ lower s2)%string.
Proof. induction s1 as [|c s1 IH]; cbn; [reflexivity | now rewrite IH]. Qed.

Lemma lstrip_lower s : lstrip (lower s) = lower (lstrip s).
Proof.
  induction s as [|c s IH]; [reflexivity|].
  cbn. rewrite isspace_lower_char_eq. destruct (isspace c); [exact IH|].
  reflexivity.
Qed.

Lemma lstrip_all_space ws s :
  all_space ws = true -> lstrip (ws ++ s) = lstrip s.
Proof.
  induction ws as [|c ws IH]; [reflexivity|].
  cbn. intros H. apply andb_prop in H as [Hc Hws]. rewrite Hc. auto.
Qed.

(** The leading whitespace of a string, split off. *)
Lemma lstrip_split s :
  exists ws, all_space ws = true /\ s = (ws ++ lstrip s)%string.
Proof.
  induction s as [|c s (ws & Hws & IH)].
  - now exists EmptyString.
  - cbn. destruct (isspace c) eqn:Hc.
    + exists (String c ws). cbn. rewrite Hc, Hws. now rewrite <- IH.
    + now exists EmptyString.
Qed.

Lemma prefix_append p s : String.prefix p (p ++ s) = true.
Proof.
  induction p as [|a p IH]; cbn; [now destruct s|].
  destruct (Ascii.ascii_dec a a); [exact IH | congruence].
Qed.

(** A match of [p] against the case-folded text is a match against some
    spelling [kw] of [p] at the start of the text. *)
Lemma prefix_lower_split p : forall s,
  String.prefix p (lower s) = true ->
  exists kw rest, s = (kw ++ rest)%string /\ lower kw = p.
Proof.
  induction p as [|a p IH]; intros s H.
  - now exists EmptyString, s.
  - destruct s as [|c s]; [discriminate|]. cbn in H.
    destruct (Ascii.ascii_dec a (lower_char c)) as [->|]; [|discriminate].
    destruct (IH s H) as (kw & rest & -> & <-).
    now exists (String c kw), rest.
Qed.

Lemma lstrip_keyword kw rest :
  lower kw = "select" -> lstrip (kw ++ rest) = (kw ++ rest)%string.
Proof.
  destruct kw as [|c kw]; [discriminate|]. cbn. intros H.
  injection H as Hc _. destruct (isspace c) eqn:Hs; [|reflexivity].
  rewrite (PyStrFacts.isspace_lower_char _ Hs) in Hc. subst c. discriminate.
Qed.

(** X1.  The test of line 125 accepts exactly the statements that consist
    of whitespace, then some spelling of [select] in any mix of upper and
    lower case, then anything at all. *)
Theorem is_select_iff :
  forall query,
    is_select query = true
    <-> exists ws kw rest,
          query = (ws ++ kw ++ rest)%string
          /\ all_space ws = true
          /\ lower kw = "select".
Proof.
  intros query. rewrite is_select_begins_with_select.
  unfold begins_with_select. split.
  - intros H. destruct (lstrip_split query) as (ws & Hws & Hq).
    apply prefix_lower_split in H as (kw & rest & Hs & Hkw).
    exists ws, kw, rest. rewrite <- Hs. auto.
  - intros (ws & kw & rest & -> & Hws & Hkw).
    rewrite (lstrip_all_space _ _ Hws), (lstrip_keyword _ _ Hkw).
    rewrite lower_append, Hkw. apply prefix_append.
Qed.

(** X2.  The test is blind to letter case: two statements with the same
    case folding get the same answer. *)
Theorem is_select_case_insensitive :
  forall q1 q2, lower q1 = lower q2 -> is_select q1 = is_select q2.
Proof.
  intros q1 q2 H. rewrite !is_select_begins_with_select.
  unfold begins_with_select. now rewrite <- !lstrip_lower, H.
Qed.

Lemma is_select_case_insensitive_witness :
  lower "SELECT * FROM Member" = lower "select * from member"
  /\ is_select "SELECT * FROM Member" = is_select "select * from member".
Proof.
  split; [reflexivity|].
  apply (is_select_case_insensitive "SELECT * FROM Member"
           "select * from member").
  reflexivity.
Defined.

Lemma prefix_lower_trailing p : forall s ws,
  no_space p -> all_space ws = true ->
  String.prefix p (lower (s ++ ws)) = String.prefix p (lower s).
Proof.
  induction p as [|a p IH]; intros s ws Hp Hws.
  - now destruct (lower (s ++ ws)), (lower s).
  - destruct s as [|c s].
    + destruct ws as [|c ws]; [reflexivity|]. cbn in *.
      apply andb_prop in Hws as [Hc _].
      destruct (Ascii.ascii_dec a (lower_char c)) as [->|]; [|reflexivity].
      rewrite (PyStrFacts.isspace_lower_char _ Hc) in Hp.
      specialize (Hp c (or_introl eq_refl)). congruence.
    + cbn. destruct (Ascii.ascii_dec a (lower_char c)); [|reflexivity].
      apply IH; [|exact Hws]. intros x Hx. apply Hp. now right.
Qed.

Lemma lstrip_append_trailing s ws :
  all_space ws = true ->
  lstrip (s ++ ws) = (lstrip s ++ ws)%string \/ lstrip (s ++ ws) = lstrip s.
Proof.
  intros Hws. induction s as [|c s IH].
  - right. cbn. clear -Hws. induction ws as [|x ws IH]; [reflexivity|].
    cbn in *. apply andb_prop in Hws as [-> Hws]. auto.
  - cbn. destruct (isspace c); [exact IH | now left].
Qed.

(** X3.  Whitespace around a statement does not change the answer of the
    test. *)
Theorem is_select_ignores_surrounding_whitespace :
  forall ws1 query ws2,
    all_space ws1 = true -> all_space ws2 = true ->
    is_select (ws1 ++ query ++ ws2) = is_select query.
Proof.
  intros ws1 query ws2 H1 H2. rewrite !is_select_begins_with_select.
  unfold begins_with_select. rewrite (lstrip_all_space _ _ H1).
  destruct (lstrip_append_trailing query ws2 H2) as [-> | ->];
    [|reflexivity].
  apply prefix_lower_trailing; [apply PyStrFacts.select_no_space | exact H2].
Qed.

Lemma is_select_ignores_surrounding_whitespace_witness :
  let nl := String (ascii_of_nat 10) EmptyString in
  all_space ("  " ++ nl) = true /\ all_space (" " ++ nl) = true
  /\ is_select (("  " ++ nl) ++ "Select 1" ++ (" " ++ nl))
     = is_select "Select 1".
Proof.
  intros nl. split; [reflexivity|]. split; [reflexivity|].
  apply (is_select_ignores_surrounding_whitespace ("  " ++ nl) "Select 1"
           (" " ++ nl)); reflexivity.
Defined.

End IsSelect.

(** ** What a method may ask of the driver *)

Section Footprints.

Variable drv : driver.
Variable P : event -> Prop.

Lemma only_quiet {A} (m : M A) :
  (forall w r w1, m w = (r, w1) -> w1 = w) -> only P m.
Proof.
  intros Hq w r w1 H. apply Hq in H as ->. exists [].
  split; [now rewrite app_nil_r | constructor].
Qed.

Lemma only_lift {A} (r : result A) : only P (lift r).
Proof. apply only_quiet. intros w r' w1 H. now injection H. Qed.

Lemma only_ret {A} (a : A) : only P (ret a).
Proof. exact (only_lift (Return a)). Qed.

Lemma only_raise {A} e : only P (@raise A e).
Proof. exact (only_lift (Raise e)). Qed.

Lemma only_get_self : only P get_self.
Proof. apply only_quiet. intros w r w1 H. now injection H. Qed.

Lemma only_get_trace : only P get_trace.
Proof. apply only_quiet. intros w r w1 H. now injection H. Qed.

Lemma only_emit ev : P ev -> only P (emit ev).
Proof.
  intros Hev w r w1 H. injection H as _ <-. exists [ev].
  split; [reflexivity | now constructor].
Qed.

Lemma only_driver_call ev : P ev -> only P (driver_call drv ev).
Proof.
  intros Hev w r w1. rewrite driver_call_run. intros H.
  injection H as _ <-. exists [ev]. split; [reflexivity | now constructor].
Qed.

Lemma only_bind {A B} (m : M A) (k : A -> M B) :
  only P m -> (forall a, only P (k a)) -> only P (bind m k).
Proof.
  intros Hm Hk w r w2. unfold bind.
  destruct (m w) as [[a|e] w1] eqn:E; intros H.
  - destruct (Hm _ _ _ E) as (e1 & T1 & F1).
    destruct (Hk a _ _ _ H) as (e2 & T2 & F2).
    exists (e1 ++ e2). split; [now rewrite T2, T1, app_assoc|].
    now apply Forall_app.
  - injection H as <- <-. exact (Hm _ _ _ E).
Qed.

Lemma only_try {A} (m : M A) h :
  only P m -> (forall e, only P (h e)) -> only P (try_except m h).
Proof.
  intros Hm Hh w r w2. unfold try_except.
  destruct (m w) as [[a|e] w1] eqn:E; intros H.
  - injection H as <- <-. exact (Hm _ _ _ E).
  - destruct (Hm _ _ _ E) as (e1 & T1 & F1).
    destruct (Hh e _ _ _ H) as (e2 & T2 & F2).
    exists (e1 ++ e2). split; [now rewrite T2, T1, app_assoc|].
    now apply Forall_app.
Qed.

Lemma only_on_connection method ev :
  P ev -> only P (on_connection drv method ev).
Proof.
  intros Hev. apply only_bind; [apply only_get_self|]. intros s.
  destruct (connection s); [now apply only_driver_call | apply only_raise].
Qed.

Lemma only_on_cursor method ev : P ev -> only P (on_cursor drv method ev).
Proof.
  intros Hev. apply only_bind; [apply only_get_self|]. intros s.
  destruct (cursor s); [now apply only_driver_call | apply only_raise].
Qed.

Lemma only_logger_info msg : P (LogInfo msg) -> only P (logger_info msg).
Proof.
  intros Hev. apply only_bind; [apply only_get_self|]. intros s.
  destruct (logger s); [now apply only_emit | apply only_raise].
Qed.

Lemma only_logger_error msg : P (LogError msg) -> only P (logger_error msg).
Proof.
  intros Hev. apply only_bind; [apply only_get_self|]. intros s.
  destruct (logger s); [now apply only_emit | apply only_raise].
Qed.

Lemma only_connection_autocommit : only P connection_autocommit.
Proof.
  apply only_bind; [apply only_get_self|]. intros s.
  destruct (connection s); [apply only_ret | apply only_raise].
Qed.

Lemma only_read_use_dict_cursor : only P read_use_dict_cursor.
Proof.
  apply only_bind; [apply only_get_self|]. intros s.
  destruct (use_dict_cursor s); [apply only_ret | apply only_raise].
Qed.

Lemma only_for_each {A} (xs : list A) body :
  (forall x, In x xs -> only P (body x)) -> only P (for_each xs body).
Proof.
  induction xs as [|x xs IH]; intros Hb; [apply only_ret|].
  cbn [for_each]. apply only_bind; [apply Hb; now left|].
  intros _. apply IH. intros y Hy. apply Hb. now right.
Qed.

Lemma only_if {A} (b : bool) (m1 m2 : M A) :
  only P m1 -> only P m2 -> only P (if b then m1 else m2).
Proof. now destruct b. Qed.

End Footprints.

Lemma is_error_log_LogError msg : is_error_log (LogError msg).
Proof. now exists msg. Qed.

Create HintDb footprint discriminated.
#[local] Hint Resolve only_lift only_ret only_raise only_get_self
  only_get_trace only_connection_autocommit only_read_use_dict_cursor
  : footprint.
#[local] Hint Resolve is_error_log_LogError : footprint.

(** Decompose a method into its calls; what stays open is that each single
    event is allowed. *)
Ltac footprint :=
  repeat first
    [ solve [auto with footprint]
    | apply only_if
    | apply only_try; [|intros]
    | apply only_on_cursor
    | apply only_on_connection
    | apply only_logger_error
    | apply only_logger_info
    | apply only_bind; [|intros] ].

Section Counting.

Variable drv : driver.
Variable cls : event -> bool.

Lemma only_at_most_0 {A} (P : event -> Prop) (m : M A) :
  only P m -> (forall ev, P ev -> cls ev = false) -> at_most cls 0 m.
Proof.
  intros Hm Hcls w r w1 H. destruct (Hm _ _ _ H) as (evs & T & F).
  exists evs. split; [exact T|].
  clear T. induction F as [|ev evs Hev _ IH]; [reflexivity|].
  cbn. now rewrite (Hcls _ Hev).
Qed.

Lemma at_most_weaken {A} (m : M A) n n' :
  at_most cls n m -> (n <= n')%nat -> at_most cls n' m.
Proof.
  intros Hm Hn w r w1 H. destruct (Hm _ _ _ H) as (evs & T & L).
  exists evs. split; [exact T | lia].
Qed.

Lemma at_most_bind {A B} n1 n2 (m : M A) (k : A -> M B) :
  at_most cls n1 m -> (forall a, at_most cls n2 (k a)) ->
  at_most cls (n1 + n2) (bind m k).
Proof.
  intros Hm Hk w r w2. unfold bind.
  destruct (m w) as [[a|e] w1] eqn:E; intros H.
  - destruct (Hm _ _ _ E) as (e1 & T1 & L1).
    destruct (Hk a _ _ _ H) as (e2 & T2 & L2).
    exists (e1 ++ e2). split; [now rewrite T2, T1, app_assoc|].
    rewrite filter_app, length_app. lia.
  - injection H as <- <-. destruct (Hm _ _ _ E) as (e1 & T1 & L1).
    exists e1. split; [exact T1 | lia].
Qed.

Lemma at_most_try {A} n1 n2 (m : M A) h :
  at_most cls n1 m -> (forall e, at_most cls n2 (h e)) ->
  at_most cls (n1 + n2) (try_except m h).
Proof.
  intros Hm Hh w r w2. unfold try_except.
  destruct (m w) as [[a|e] w1] eqn:E; intros H.
  - injection H as <- <-. destruct (Hm _ _ _ E) as (e1 & T1 & L1).
    exists e1. split; [exact T1 | lia].
  - destruct (Hm _ _ _ E) as (e1 & T1 & L1).
    destruct (Hh e _ _ _ H) as (e2 & T2 & L2).
    exists (e1 ++ e2). split; [now rewrite T2, T1, app_assoc|].
    rewrite filter_app, length_app. lia.
Qed.

Lemma at_most_on_connection method ev :
  at_most cls 1 (on_connection drv method ev).
Proof.
  intros w r w1. unfold on_connection, bind, get_self, raise.
  destruct (connection (self w)).
  - rewrite driver_call_run. intros H. injection H as _ <-.
    exists [ev]. split; [reflexivity|]. cbn. destruct (cls ev); cbn; lia.
  - intros H. injection H as _ <-. exists [].
    split; [now rewrite app_nil_r | cbn; lia].
Qed.

Lemma at_most_on_cursor method ev :
  at_most cls 1 (on_cursor drv method ev).
Proof.
  intros w r w1. unfold on_cursor, bind, get_self, raise.
  destruct (cursor (self w)).
  - rewrite driver_call_run. intros H. injection H as _ <-.
    exists [ev]. split; [reflexivity|]. cbn. destruct (cls ev); cbn; lia.
  - intros H. injection H as _ <-. exists [].
    split; [now rewrite app_nil_r | cbn; lia].
Qed.

Lemma at_most_for_each {A} (xs : list A) body :
  (forall x, at_most cls 1 (body x)) ->
  at_most cls (List.length xs) (for_each xs body).
Proof.
  intros Hb. induction xs as [|x xs IH].
  - intros w r w1 H. injection H as _ <-. exists [].
    split; [now rewrite app_nil_r | cbn; lia].
  - cbn [for_each List.length].
    apply (at_most_bind 1 (List.length xs)); [apply Hb | intros _; exact IH].
Qed.

Lemma at_most_if {A} n (b : bool) (m1 m2 : M A) :
  at_most cls n m1 -> at_most cls n m2 ->
  at_most cls n (if b then m1 else m2).
Proof. now destruct b. Qed.

End Counting.

Section MethodFootprints.

Variable drv : driver.

Lemma only_handler {A} (P : event -> Prop) label e :
  P Rollback -> (forall msg, P (LogError msg)) ->
  only P (@log_rollback_raise drv A label e).
Proof.
  intros HR HL. unfold log_rollback_raise, connection_rollback.
  footprint; auto.
Qed.

Lemma only_select_execute_query_try q p :
  only (fun ev => ev = Execute q p \/ ev = FetchAll)
       (select_execute_query_try drv q p).
Proof.
  unfold select_execute_query_try, cursor_execute, cursor_fetchall.
  footprint; auto.
Qed.

Lemma only_select_get_count_query_try q p :
  only (fun ev => ev = Execute q p \/ ev = FetchOne)
       (select_get_count_query_try drv q p).
Proof.
  unfold select_get_count_query_try, cursor_execute, cursor_fetchone.
  footprint; auto.
Qed.

Lemma only_execute_then_autocommit q p :
  only (fun ev => ev = Execute q p \/ ev = Commit)
       (execute_then_autocommit drv q p).
Proof.
  unfold execute_then_autocommit, cursor_execute, connection_commit.
  footprint; auto.
Qed.

Lemma only_bind_lift {A B} (P : event -> Prop) (r : result A)
    (k : A -> M B) :
  (forall a, r = Return a -> only P (k a)) -> only P (bind (lift r) k).
Proof.
  intros Hk. destruct r as [a|e].
  - intros w r w1 H. exact (Hk a eq_refl w r w1 H).
  - apply only_quiet. intros w r w1 H. now injection H.
Qed.

Lemma at_most_bind_lift {A B} cls n (r : result A) (k : A -> M B) :
  (forall a, r = Return a -> at_most cls n (k a)) ->
  at_most cls n (bind (lift r) k).
Proof.
  intros Hk. destruct r as [a|e].
  - intros w r w1 H. exact (Hk a eq_refl w r w1 H).
  - intros w r w1 H. injection H as _ <-. exists [].
    split; [now rewrite app_nil_r | cbn; lia].
Qed.

Lemma only_bulk_insert_try q data K :
  only (fun ev => (exists chunk, In chunk (bulk_chunks data K)
                                 /\ ev = ExecuteMany q chunk)
                  \/ ev = Commit)
       (bulk_insert_try drv q data K).
Proof.
  unfold bulk_insert_try. apply only_bind_lift. intros indices Hr.
  apply only_bind.
  - apply only_for_each. intros i Hi. apply only_on_cursor. left.
    exists (slice data i (i + K)). split; [|reflexivity].
    unfold bulk_chunks. rewrite Hr.
    exact (in_map (fun i => slice data i (i + K)) _ _ Hi).
  - intros _. unfold connection_commit. footprint; auto.
Qed.

Lemma only_close_try :
  only (fun ev => ev = CursorClose \/ ev = ConnectionClose
                  \/ ev = LogInfo "Database connection closed.")
       (close_try drv).
Proof.
  unfold close_try, cursor_close, connection_close. footprint; auto.
Qed.

(** Counts for the handler and for the bodies. *)
Lemma at_most_handler {A} cls label e :
  (forall msg, cls (LogError msg) = false) ->
  at_most cls 1 (@log_rollback_raise drv A label e).
Proof.
  intros Hlog. unfold log_rollback_raise, connection_rollback.
  apply (at_most_bind cls 0 1).
  - apply (only_at_most_0 cls (fun ev => exists msg, ev = LogError msg)).
    + footprint. now eexists.
    + intros ev [msg ->]. apply Hlog.
  - intros _. apply (at_most_bind cls 1 0).
    + apply at_most_on_connection.
    + intros _. eapply only_at_most_0; [apply (only_raise (fun _ => False))|].
      intros ev [].
Qed.

Lemma at_most_try_handler {A} cls n (body : M A) label :
  at_most cls n body ->
  (forall msg, cls (LogError msg) = false) -> cls Rollback = false ->
  at_most cls n (try_except body (log_rollback_raise drv label)).
Proof.
  intros Hb Hlog Hrb. eapply at_most_weaken.
  - apply (at_most_try cls n 0); [exact Hb|]. intros e.
    apply (only_at_most_0 cls
             (fun ev => ev = Rollback \/ is_error_log ev)).
    + apply only_handler; [now left | intros; right; now eexists].
    + intros ev [->|[msg ->]]; [exact Hrb | apply Hlog].
  - lia.
Qed.

Lemma at_most_rollback_try_handler {A} (P : event -> Prop) (body : M A)
    label :
  only P body -> (forall ev, P ev -> is_rollback ev = false) ->
  at_most is_rollback 1 (try_except body (log_rollback_raise drv label)).
Proof.
  intros Hb HP. apply (at_most_try is_rollback 0 1).
  - exact (only_at_most_0 _ _ _ Hb HP).
  - intros e. now apply at_most_handler.
Qed.

Lemma at_most_execute_then_autocommit cls q p :
  cls (Execute q p) = false \/ cls Commit = false ->
  at_most cls 1 (execute_then_autocommit drv q p).
Proof.
  intros Hcls. unfold execute_then_autocommit, cursor_execute,
    connection_commit.
  destruct Hcls as [He|Hc].
  - apply (at_most_bind cls 0 1).
    + apply (only_at_most_0 cls (eq (Execute q p))).
      * now apply only_on_cursor.
      * now intros ev <-.
    + intros _. apply (at_most_bind cls 0 1).
      * eapply only_at_most_0;
          [apply (only_connection_autocommit (fun _ => False))|].
        intros ev [].
      * intros ac. apply at_most_if; [apply at_most_on_connection|].
        eapply at_most_weaken.
        -- eapply only_at_most_0; [apply (only_ret (fun _ => False))|].
           intros ev [].
        -- lia.
  - apply (at_most_bind cls 1 0); [apply at_most_on_cursor|].
    intros _.
    apply (only_at_most_0 cls (eq Commit)).
    + footprint; auto.
    + now intros ev <-.
Qed.

End MethodFootprints.

Lemma only_weaken {A} (P Q : event -> Prop) (m : M A) :
  only P m -> (forall ev, P ev -> Q ev) -> only Q m.
Proof.
  intros Hm HPQ w r w1 H. destruct (Hm _ _ _ H) as (evs & T & F).
  exists evs. split; [exact T|]. eapply Forall_impl; [exact HPQ | exact F].
Qed.

Lemma only_statement_method drv {A} (P Q : event -> Prop) (body : M A)
    label :
  only P body -> (forall ev, P ev -> Q ev) ->
  Q Rollback -> (forall msg, Q (LogError msg)) ->
  only Q (try_except body (log_rollback_raise drv label)).
Proof.
  intros Hb HPQ HR HL. apply only_try.
  - exact (only_weaken _ _ _ Hb HPQ).
  - intros e. now apply only_handler.
Qed.

(** X4.  Whatever the instance, the driver and the outcome, a query method
    asks the driver for nothing but: the execution of the statement exactly
    as given, with the parameters passed beside it; its one fetch; a
    rollback.  In particular it never commits, whatever the autocommit
    flag, and never releases the cursor or the connection. *)
Theorem query_methods_footprint :
  forall drv query params,
    only (query_footprint query params FetchAll)
         (select_execute_query drv query params)
    /\ only (query_footprint query params FetchOne)
            (select_get_count_query drv query params)
    /\ at_most is_commit 0 (select_execute_query drv query params)
    /\ at_most is_commit 0 (select_get_count_query drv query params)
    /\ at_most is_release 0 (select_execute_query drv query params)
    /\ at_most is_release 0 (select_get_count_query drv query params).
Proof.
  intros drv query params.
  assert (H1 : only (query_footprint query params FetchAll)
                    (select_execute_query drv query params)).
  { apply (only_statement_method drv _ _ _ "Error executing query: "
             (only_select_execute_query_try drv query params));
      unfold query_footprint, is_error_log; intuition eauto. }
  assert (H2 : only (query_footprint query params FetchOne)
                    (select_get_count_query drv query params)).
  { apply (only_statement_method drv _ _ _ "Error getting row count: "
             (only_select_get_count_query_try drv query params));
      unfold query_footprint, is_error_log; intuition eauto. }
  repeat split; try assumption;
    (eapply only_at_most_0; [eassumption|]);
    intros ev [->|[->|[->|[msg ->]]]]; reflexivity.
Qed.

(** X5.  Whatever the instance, the driver and the outcome, [insert],
    [update_execute_query] and [delete_execute_query] ask the driver for
    nothing but the execution of the statement exactly as given, a commit
    and a rollback; [bulk_insert] for nothing but [executemany] of the
    statement on chunks of the rows, a commit and a rollback.  None of them
    fetches, releases or connects. *)
Theorem mutation_methods_footprint :
  forall drv query,
    (forall params,
        only (mutation_footprint query params) (insert drv query params)
        /\ only (mutation_footprint query params)
                (update_execute_query drv query params)
        /\ only (mutation_footprint query params)
                (delete_execute_query drv query params))
    /\ (forall data K,
          only (bulk_footprint query data K)
               (bulk_insert drv query data K)).
Proof.
  intros drv query. split.
  - intros params. repeat split.
    + apply (only_statement_method drv _ _ _ "Error executing insert: "
               (only_execute_then_autocommit drv query params));
        unfold mutation_footprint, is_error_log; intuition eauto.
    + apply (only_statement_method drv _ _ _ "Error executing update: "
               (only_execute_then_autocommit drv query params));
        unfold mutation_footprint, is_error_log; intuition eauto.
    + apply (only_statement_method drv _ _ _ "Error executing delete: "
               (only_execute_then_autocommit drv query params));
        unfold mutation_footprint, is_error_log; intuition eauto.
  - intros data K.
    apply (only_statement_method drv _ _ _ "Error executing bulk insert: "
             (only_bulk_insert_try drv query data K));
      unfold bulk_footprint, is_error_log; intuition eauto.
Qed.

(** X6.  Whatever the instance, the driver and the outcome, [close] asks
    the driver only to release the cursor and the connection: it neither
    commits nor rolls back what is pending, and executes nothing. *)
Theorem close_footprint_only :
  forall drv,
    only close_footprint (close drv)
    /\ at_most is_commit 0 (close drv)
    /\ at_most is_rollback 0 (close drv)
    /\ at_most is_execute 0 (close drv).
Proof.
  intros drv.
  assert (H : only close_footprint (close drv)).
  { unfold close. apply only_try.
    - apply (only_weaken _ _ _ (only_close_try drv)).
      unfold close_footprint. intuition.
    - intros e. unfold close_footprint, is_error_log.
      footprint. right; right; right. now eexists. }
  repeat split; try exact H;
    (eapply only_at_most_0; [exact H|]);
    intros ev [->|[->|[->|[msg ->]]]]; reflexivity.
Qed.

(** ** No retry *)

Section Attempts.

Variable drv : driver.

Lemma at_most_execute_select_try q p :
  at_most is_execute 1 (select_execute_query_try drv q p).
Proof.
  unfold select_execute_query_try, cursor_execute.
  apply (at_most_bind is_execute 1 0); [apply at_most_on_cursor|].
  intros _. apply (only_at_most_0 is_execute (eq FetchAll)).
  - unfold cursor_fetchall. footprint; auto.
  - now intros ev <-.
Qed.

Lemma at_most_execute_count_try q p :
  at_most is_execute 1 (select_get_count_query_try drv q p).
Proof.
  unfold select_get_count_query_try, cursor_execute.
  apply (at_most_bind is_execute 1 0); [apply at_most_on_cursor|].
  intros _. apply (only_at_most_0 is_execute (eq FetchOne)).
  - unfold cursor_fetchone. footprint; auto.
  - now intros ev <-.
Qed.

Lemma at_most_autocommit_tail cls n :
  (1 <= n)%nat ->
  at_most cls n
    (ac <- connection_autocommit ;;
     if ac then connection_commit drv else ret tt).
Proof.
  intros Hn. eapply at_most_weaken; [|exact Hn].
  apply (at_most_bind cls 0 1).
  - eapply only_at_most_0;
      [apply (only_connection_autocommit (fun _ => False))|].
    intros ev [].
  - intros ac. apply at_most_if; [apply at_most_on_connection|].
    eapply at_most_weaken.
    + eapply only_at_most_0; [apply (only_ret (fun _ => False))|].
      intros ev [].
    + lia.
Qed.

Lemma at_most_execute_bulk_try q data K :
  at_most is_execute (List.length (bulk_chunks data K))
          (bulk_insert_try drv q data K).
Proof.
  unfold bulk_insert_try. apply at_most_bind_lift. intros indices Hr.
  assert (Hlen : List.length (bulk_chunks data K) = List.length indices).
  { unfold bulk_chunks. rewrite Hr. apply length_map. }
  rewrite Hlen. eapply at_most_weaken.
  - apply (at_most_bind is_execute (List.length indices) 0).
    + apply at_most_for_each. intros i. apply at_most_on_cursor.
    + intros _. apply (only_at_most_0 is_execute (eq Commit)).
      * unfold connection_commit. footprint; auto.
      * now intros ev <-.
  - lia.
Qed.

Lemma at_most_commit_bulk_try q data K :
  at_most is_commit 1 (bulk_insert_try drv q data K).
Proof.
  unfold bulk_insert_try. apply at_most_bind_lift. intros indices Hr.
  apply (at_most_bind is_commit 0 1).
  - apply (only_at_most_0 is_commit
             (fun ev => exists ch, ev = ExecuteMany q ch)).
    + apply only_for_each. intros i _. apply only_on_cursor. now eexists.
    + now intros ev [ch ->].
  - intros _. now apply at_most_autocommit_tail.
Qed.

End Attempts.


(** ** More on bulk insertion *)

Lemma range_empty (M K : Z) :
  0 <= M -> K < 0 \/ (M = 0 /\ K <> 0) -> range 0 M K = Return [].
Proof.
  intros HM HK. unfold range, range_length.
  destruct (Z.eqb_spec K 0); [lia|].
  destruct (Z.ltb_spec 0 K), (Z.ltb_spec 0 M), (Z.ltb_spec M 0);
    try lia; reflexivity.
Qed.

(** X8.  When there is nothing to iterate over, because the chunk size is
    negative or because there are no rows, [bulk_insert] on an open
    instance executes nothing.  With autocommit off it returns normally
    without a single call; with autocommit on it still commits, and returns
    normally when the commit is accepted (a refused commit is handled as
    any failure: logged, rollback attempted, error raised). *)
Theorem bulk_insert_nothing_to_do :
  forall drv query data K w,
    is_open (self w) = true ->
    K < 0 \/ (data = [] /\ K <> 0) ->
    bulk_chunks data K = []
    /\ bulk_insert drv query data K w
       = (if autocommit_on (self w)
          then match fails drv (trace w) Commit with
               | None =>
                   (Return tt,
                    {| self := self w; trace := trace w ++ [Commit] |})
               | Some e =>
                   let msg :=
                     ("Error executing bulk insert: " ++ str e)%string in
                   (match fails drv (trace w ++ [Commit; LogError msg])
                                Rollback with
                    | None => Raise (PostgresDbQueryExecutionError msg e)
                    | Some e' => Raise e'
                    end,
                    {| self := self w;
                       trace := trace w ++ [Commit; LogError msg; Rollback]
                    |})
               end
          else (Return tt, w)).
Proof.
  intros drv query data K [s t] Ho HK. cbn [self trace] in *.
  assert (Hr : range 0 (Z.of_nat (List.length data)) K = Return []).
  { apply range_empty; [lia|]. destruct HK as [HK|[-> HK]]; auto. }
  split; [unfold bulk_chunks; now rewrite Hr|].
  apply is_open_inv in Ho as (c & cur & lg & u & ->).
  unfold autocommit_on in *. cbn [connection] in *.
  unfold bulk_insert, bulk_insert_try. rewrite Hr. run_py. cbn [for_each].
  run_py. destruct (autocommit c); run_py.
  - destruct (fails drv t Commit) as [e|]; run_py; [|reflexivity].
    rewrite <- !app_assoc. cbn [app].
    destruct (fails drv _ Rollback); reflexivity.
  - reflexivity.
Qed.

Lemma bulk_insert_nothing_to_do_witness :
  let drv := always_ok [] in
  let w := at_start (opened default_logger true false) in
  let q := "INSERT INTO member (id, name) VALUES (%s, %s)" in
  bulk_chunks (member_rows 5) (-2) = []
  /\ bulk_insert drv q (member_rows 5) (-2) w
     = (Return tt, {| self := self w; trace := trace w ++ [Commit] |}).
Proof.
  intros drv w q.
  apply (bulk_insert_nothing_to_do drv q (member_rows 5) (-2) w);
    [reflexivity | left; reflexivity].
Defined.

Lemma chunk_count_ceil {A} (data : list A) K :
  0 < K ->
  chunk_count data K
  = Z.to_nat ((Z.of_nat (List.length data) + K - 1) / K).
Proof.
  intros HK. unfold chunk_count, range_length.
  destruct (Z.ltb_spec 0 K); [|lia].
  set (M := Z.of_nat (List.length data)).
  destruct (Z.ltb_spec 0 M).
  - f_equal. replace (M + K - 1) with (M - 0 - 1 + 1 * K) by lia.
    rewrite Z.div_add by lia. reflexivity.
  - assert (M = 0) by lia. replace (M + K - 1) with (K - 1) by lia.
    rewrite Z.div_small by lia. reflexivity.
Qed.

(** X9.  For a positive chunk size [K] and [M] rows, the loop forms
    ceil(M / K) chunks; chunk number [j] holds the rows from position
    [j * K] on, [K] of them, or those that are left for the last chunk. *)
Theorem bulk_chunks_shape :
  forall (data : list (list value)) K,
    0 < K ->
    let chunks := bulk_chunks data K in
    List.length chunks
    = Z.to_nat ((Z.of_nat (List.length data) + K - 1) / K)
    /\ (forall j, (j < List.length chunks)%nat ->
          nth j chunks []
          = firstn (Z.to_nat K) (skipn (j * Z.to_nat K)%nat data))
    /\ (forall j, (S j < List.length chunks)%nat ->
          List.length (nth j chunks []) = Z.to_nat K).
Proof.
  intros data K HK chunks. subst chunks.
  assert (Hlen : List.length (bulk_chunks data K) = chunk_count data K).
  { rewrite bulk_chunks_blocks by exact HK.
    now rewrite length_map, length_seq. }
  repeat split.
  - rewrite Hlen. now apply chunk_count_ceil.
  - intros j Hj. rewrite Hlen in Hj.
    rewrite bulk_chunks_blocks by exact HK.
    rewrite (nth_indep _ []
               (firstn (Z.to_nat K) (skipn (0 * Z.to_nat K)%nat data)))
      by (rewrite length_map, length_seq; exact Hj).
    rewrite (map_nth (fun j => firstn (Z.to_nat K)
                                 (skipn (j * Z.to_nat K)%nat data))).
    now rewrite seq_nth.
  - intros j Hj. now apply bulk_chunks_full.
Qed.

Lemma bulk_chunks_shape_witness :
  let chunks := bulk_chunks (member_rows 120) 50 in
  0 < 50
  /\ List.length chunks = Z.to_nat ((Z.of_nat 120 + 50 - 1) / 50)
  /\ List.length (nth 1 chunks []) = 50%nat.
Proof.
  intros chunks.
  destruct (bulk_chunks_shape (member_rows 120) 50 eq_refl)
    as (Hn & _ & Hfull).
  split; [reflexivity|]. split.
  - unfold member_rows in Hn. rewrite length_map, length_seq in Hn.
    exact Hn.
  - apply (Hfull 1%nat). vm_compute. lia.
Defined.

(** X10.  When the chunk size is at least the number of rows, and there is
    a row at all, the rows go to the driver in a single chunk. *)
Theorem bulk_chunks_single :
  forall (data : list (list value)) K,
    data <> [] -> Z.of_nat (List.length data) <= K ->
    bulk_chunks data K = [data].
Proof.
  intros data K Hne HK.
  assert (Hpos : 0 < K) by (destruct data; [congruence | cbn in HK; lia]).
  assert (Hlen : (0 < List.length data)%nat)
    by (destruct data; [congruence | cbn; lia]).
  rewrite bulk_chunks_blocks by exact Hpos.
  assert (Hc : chunk_count data K = 1%nat).
  { rewrite chunk_count_ceil by exact Hpos.
    replace (Z.of_nat (List.length data) + K - 1)
      with ((Z.of_nat (List.length data) - 1) + 1 * K) by lia.
    rewrite Z.div_add, Z.div_small by lia. reflexivity. }
  rewrite Hc. cbn [seq map Nat.mul skipn]. f_equal.
  apply firstn_all2. lia.
Qed.

Lemma bulk_chunks_single_witness :
  member_rows 120 <> [] /\ Z.of_nat (List.length (member_rows 120)) <= 1000
  /\ bulk_chunks (member_rows 120) 1000 = [member_rows 120].
Proof.
  assert (H1 : member_rows 120 <> []) by discriminate.
  assert (H2 : Z.of_nat (List.length (member_rows 120)) <= 1000)
    by (vm_compute; discriminate).
  split; [exact H1|]. split; [exact H2|].
  exact (bulk_chunks_single (member_rows 120) 1000 H1 H2).
Defined.

Lemma for_each_app {A} (xs ys : list A) body :
  forall w, for_each (xs ++ ys) body w
            = (for_each xs body ;; for_each ys body) w.
Proof.
  induction xs as [|x xs IH]; intros w; [reflexivity|].
  cbn [app for_each]. unfold bind.
  destruct (body x w) as [[[]|e] w1]; [|reflexivity].
  rewrite IH. reflexivity.
Qed.

Lemma for_each_executemany_succeeded drv query c
    (f : Z -> list (list value)) :
  forall indices w,
    cursor (self w) = Some c ->
    all_succeeded drv (trace w)
      (map (fun i => ExecuteMany query (f i)) indices) ->
    for_each indices (fun i => cursor_executemany drv query (f i)) w
    = (Return tt,
       {| self := self w;
          trace := trace w ++ map (fun i => ExecuteMany query (f i)) indices
       |}).
Proof.
  induction indices as [|i indices IH]; intros w Hc Hok.
  - cbn. rewrite app_nil_r. now destruct w.
  - cbn [map all_succeeded] in Hok. destruct Hok as [Hi Hok].
    cbn [for_each map]. erewrite bind_Return.
    2:{ unfold cursor_executemany.
        rewrite (on_cursor_run _ _ _ _ c Hc), driver_call_run, Hi;
          reflexivity. }
    rewrite IH by assumption. cbn [self trace]. now rewrite <- app_assoc.
Qed.

(** X11.  [bulk_insert] stops at the first chunk the driver refuses: the
    chunks before it have been sent, the chunks after it never are, no
    commit is made; the failure is logged, a rollback is attempted, and
    [PostgresDbQueryExecutionError] carrying the cause is raised (the
    rollback's own error, if the rollback fails too). *)
Theorem bulk_insert_stops_at_failing_chunk :
  forall drv query data K w before bad after e,
    is_open (self w) = true ->
    bulk_chunks data K = before ++ bad :: after ->
    all_succeeded drv (trace w) (map (ExecuteMany query) before) ->
    fails drv (trace w ++ map (ExecuteMany query) before)
          (ExecuteMany query bad) = Some e ->
    let msg := ("Error executing bulk insert: " ++ str e)%string in
    let sent := map (ExecuteMany query) before ++ [ExecuteMany query bad] in
    bulk_insert drv query data K w
    = (match fails drv (trace w ++ sent ++ [LogError msg]) Rollback with
       | None => Raise (PostgresDbQueryExecutionError msg e)
       | Some e' => Raise e'
       end,
       {| self := self w;
          trace := trace w ++ sent ++ [LogError msg; Rollback] |}).
Proof.
  intros drv query data K w before bad after e Ho Hch Hok Hbad msg sent.
  pose proof (try_log_rollback_raise drv
                (bulk_insert_try drv query data K)
                "Error executing bulk insert: " w
                (grows_bulk_insert_try drv query data K) Ho) as Hpol.
  assert (Hbody : bulk_insert_try drv query data K w
                  = (Raise e, {| self := self w;
                                 trace := trace w ++ sent |})).
  { apply is_open_inv in Ho as (c & cur & lg & u & Hs).
    unfold bulk_insert_try. unfold bulk_chunks in Hch.
    destruct (range 0 (Z.of_nat (List.length data)) K)
      as [indices|] eqn:Hr; [|now destruct before].
    apply map_eq_app in Hch as (i1 & i2 & -> & Hb1 & Hch).
    apply map_eq_cons in Hch as (i & i3 & -> & Hbad' & _).
    subst before bad. rewrite map_map in Hok, Hbad.
    unfold lift at 1. unfold bind at 1.
    apply bind_Raise. rewrite for_each_app. erewrite bind_Return.
    2:{ apply (for_each_executemany_succeeded drv query cur
                 (fun i => slice data i (i + K))); [now rewrite Hs|].
        exact Hok. }
    cbn [for_each]. apply bind_Raise. unfold cursor_executemany.
    rewrite (on_cursor_run _ _ _ _ cur) by (cbn [self]; now rewrite Hs).
    rewrite driver_call_run. cbn [self trace]. rewrite Hbad.
    subst sent. now rewrite map_map, <- app_assoc. }
  unfold logged_rolled_back_wrapped in Hpol. rewrite Hbody in Hpol.
  cbn [self trace] in Hpol. rewrite <- !app_assoc in Hpol. exact Hpol.
Qed.

(** A server that accepts the first chunk and refuses the second. *)
Lemma bulk_insert_stops_at_failing_chunk_witness :
  let drv :=
    {| fails := fun t ev =>
         if is_execute ev && existsb is_execute t
         then Some (Psycopg2Error "duplicate key") else None;
       fetchall_rows := fun _ => [];
       fetchone_row := fun _ => None |} in
  let w := at_start (opened default_logger true false) in
  let q := "INSERT INTO member (id, name) VALUES (%s, %s)" in
  let c1 := member_rows 2 in
  let c2 := skipn 2 (member_rows 4) in
  let c3 := skipn 4 (member_rows 5) in
  let msg := "Error executing bulk insert: duplicate key" in
  bulk_insert drv q (member_rows 5) 2 w
  = (Raise (PostgresDbQueryExecutionError msg
              (Psycopg2Error "duplicate key")),
     {| self := self w;
        trace := [ExecuteMany q c1; ExecuteMany q c2; LogError msg;
                  Rollback] |}).
Proof.
  intros drv w q c1 c2 c3 msg.
  apply (bulk_insert_stops_at_failing_chunk drv q (member_rows 5) 2 w
           [c1] c2 [c3] (Psycopg2Error "duplicate key")).
  - reflexivity.
  - reflexivity.
  - cbn. repeat split; reflexivity.
  - reflexivity.
Defined.

(** ** More on closing *)

(** X12.  If releasing the cursor fails, [close] logs the failure and raises
    [PostgresDbConnectionError] without ever asking for the release of the
    connection: the connection stays open. *)
Theorem close_cursor_failure_skips_connection :
  forall drv w e,
    truthy (cursor (self w)) = true ->
    truthy (logger (self w)) = true ->
    fails drv (trace w) CursorClose = Some e ->
    let msg := ("Error closing connection: " ++ str e)%string in
    close drv w
    = (Raise (PostgresDbConnectionError msg e),
       {| self := self w; trace := trace w ++ [CursorClose; LogError msg] |}).
Proof.
  intros drv [s t] e Hc Hl He msg. cbn [self trace] in *.
  destruct s as [conn [cur|] [lg|] u]; try discriminate.
  unfold close, close_try. run_py. rewrite He. run_py.
  now rewrite <- app_assoc.
Qed.

Lemma close_cursor_failure_skips_connection_witness :
  let drv :=
    {| fails := fun _ ev =>
         if is_cursor_close ev then Some (Psycopg2Error "cursor busy")
         else None;
       fetchall_rows := fun _ => [];
       fetchone_row := fun _ => None |} in
  let w := at_start (opened default_logger true false) in
  let msg := "Error closing connection: cursor busy" in
  close drv w
  = (Raise (PostgresDbConnectionError msg (Psycopg2Error "cursor busy")),
     {| self := self w; trace := trace w ++ [CursorClose; LogError msg] |}).
Proof.
  intros drv w msg.
  apply (close_cursor_failure_skips_connection drv w
           (Psycopg2Error "cursor busy")); reflexivity.
Defined.

Lemma close_run drv s t :
  (truthy (connection s) = true -> truthy (logger s) = true) ->
  all_succeeded drv t (released s) ->
  close drv {| self := s; trace := t |}
  = (Return tt, {| self := s; trace := t ++ released s |}).
Proof.
  intros Hl Hok.
  destruct s as [[conn|] [cur|] lg u]; unfold released in *;
    cbn [truthy connection cursor logger app] in *.
  - destruct lg as [lg|]; [|now specialize (Hl eq_refl)].
    destruct Hok as (H1 & H2 & _).
    unfold close, close_try. run_py. rewrite (H1 eq_refl). run_py.
    rewrite (H2 eq_refl). run_py. now rewrite <- !app_assoc.
  - destruct lg as [lg|]; [|now specialize (Hl eq_refl)].
    destruct Hok as (H1 & _).
    unfold close, close_try. run_py. rewrite (H1 eq_refl). run_py.
    now rewrite <- !app_assoc.
  - destruct Hok as (H1 & _).
    unfold close, close_try. run_py. rewrite (H1 eq_refl). run_py.
    reflexivity.
  - unfold close, close_try. run_py. now rewrite app_nil_r.
Qed.

(** X13.  If the driver accepts the release calls, [close] returns normally
    after exactly those calls, cursor first, and one success line; on an
    instance that holds neither a cursor nor a connection it does nothing
    at all and logs nothing. *)
Theorem close_returns :
  forall drv w,
    (truthy (connection (self w)) = true ->
     truthy (logger (self w)) = true) ->
    all_succeeded drv (trace w) (released (self w)) ->
    close drv w
    = (Return tt,
       {| self := self w; trace := trace w ++ released (self w) |})
    /\ (connection (self w) = None -> cursor (self w) = None ->
        close drv w = (Return tt, w)).
Proof.
  intros drv [s t] Hl Hok. cbn [self trace] in *.
  pose proof (close_run drv s t Hl Hok) as Hrun.
  split; [exact Hrun|]. intros Hc Hcur. rewrite Hrun.
  unfold released. rewrite Hc, Hcur. cbn. now rewrite app_nil_r.
Qed.

Lemma close_returns_witness :
  let drv := server_gone in
  let w := at_start fresh in
  close drv w = (Return tt, w).
Proof.
  intros drv w.
  refine (proj2 (close_returns drv w _ _) eq_refl eq_refl).
  - discriminate.
  - exact I.
Defined.

(** ** Edge cases of the count query *)

(** X14.  When the fetched row has no field named [count] (named shape) or
    no column at all (positional shape), [select_get_count_query] returns no
    value: the [KeyError], respectively [IndexError], of the lookup is
    logged, a rollback is attempted, and [PostgresDbQueryExecutionError]
    carrying it is raised, unless the rollback call itself raises, in which
    case its error is what reaches the caller. *)
Theorem select_get_count_query_missing_count :
  forall drv query params w cause,
    is_open (self w) = true ->
    fails drv (trace w) (Execute query params) = None ->
    fails drv (trace w ++ [Execute query params]) FetchOne = None ->
    (use_dict_cursor (self w) = Some true
     /\ (exists d,
           fetchone_row drv (trace w ++ [Execute query params])
             = Some (RealDictRow d)
           /\ dict_get d "count" = None)
     /\ cause = KeyError "'count'"
     \/ use_dict_cursor (self w) = Some false
        /\ fetchone_row drv (trace w ++ [Execute query params])
           = Some (Tuple [])
        /\ cause = IndexError "tuple index out of range") ->
    let msg := ("Error getting row count: " ++ str cause)%string in
    select_get_count_query drv query params w
    = (match fails drv (trace w ++ [Execute query params; FetchOne;
                                    LogError msg]) Rollback with
       | None => Raise (PostgresDbQueryExecutionError msg cause)
       | Some e' => Raise e'
       end,
       {| self := self w;
          trace := trace w ++ [Execute query params; FetchOne; LogError msg;
                               Rollback] |}).
Proof.
  intros drv query params [s t] cause Ho He Hf Hrow msg.
  cbn [self trace] in *.
  apply is_open_inv in Ho as (c & cur & lg & u & ->).
  cbn [use_dict_cursor] in Hrow.
  unfold select_get_count_query, select_get_count_query_try.
  run_py. rewrite He. run_py. rewrite Hf. run_py.
  assert (Hget : (if u
                  then getitem_str
                         (fetchone_row drv (t ++ [Execute query params]))
                         "count"
                  else getitem_0
                         (fetchone_row drv (t ++ [Execute query params])))
                 = Raise cause).
  { destruct Hrow as [(Hu & (d & -> & Hd) & ->) | (Hu & -> & ->)];
      injection Hu as ->; cbn; [now rewrite Hd | reflexivity]. }
  rewrite Hget. run_py. fold msg. rewrite <- !app_assoc. cbn [app].
  destruct (fails drv _ Rollback); reflexivity.
Qed.

Lemma select_get_count_query_missing_count_witness :
  let drv := always_ok [RealDictRow [("total", VInt 3)]] in
  let w := at_start (opened default_logger true true) in
  let q := "SELECT COUNT(*) AS total FROM member" in
  let msg := "Error getting row count: 'count'" in
  select_get_count_query drv q None w
  = (Raise (PostgresDbQueryExecutionError msg (KeyError "'count'")),
     {| self := self w;
        trace := trace w ++ [Execute q None; FetchOne; LogError msg;
                             Rollback] |}).
Proof.
  intros drv w q msg.
  apply (select_get_count_query_missing_count drv q None w
           (KeyError "'count'")); try reflexivity.
  left. split; [reflexivity|]. split; [|reflexivity].
  exists [("total", VInt 3)]. split; reflexivity.
Defined.

(** ** An instance without connection *)

(** X15.  On an instance that holds neither connection nor cursor (and has a
    logger), the statement methods do not raise
    [PostgresDbQueryExecutionError]: the failure is logged, and the
    handler's own rollback then fails on the missing connection, so a bare
    [AttributeError] reaches the caller.  [commit()] and [rollback()], whose
    handlers do not roll back, raise [PostgresDbQueryExecutionError].  In
    no case is the driver called. *)
Theorem methods_without_connection :
  forall drv w,
    connection (self w) = None -> cursor (self w) = None ->
    truthy (logger (self w)) = true ->
    let bare msg :=
      (@Raise unit (none_has_no "rollback"),
       {| self := self w; trace := trace w ++ [LogError msg] |}) in
    let no_execute :=
      "'NoneType' object has no attribute 'execute'" in
    (forall q p,
        exists w', select_execute_query drv q p w
                   = (Raise (none_has_no "rollback"), w')
                   /\ trace w'
                      = trace w ++ [LogError ("Error executing query: "
                                              ++ no_execute)])
    /\ (forall q p,
          exists w', select_get_count_query drv q p w
                     = (Raise (none_has_no "rollback"), w')
                     /\ trace w'
                        = trace w ++ [LogError ("Error getting row count: "
                                                ++ no_execute)])
    /\ (forall q p,
          insert drv q p w
            = bare ("Error executing insert: " ++ no_execute)%string
          /\ update_execute_query drv q p w
             = bare ("Error executing update: " ++ no_execute)%string
          /\ delete_execute_query drv q p w
             = bare ("Error executing delete: " ++ no_execute)%string)
    /\ (forall q data K,
          exists msg, bulk_insert drv q data K w = bare msg)
    /\ commit drv w
       = (Raise (PostgresDbQueryExecutionError
                   "Error committing transaction: 'NoneType' object has no attribute 'commit'"
                   (none_has_no "commit")),
          {| self := self w;
             trace := trace w ++ [LogError
               "Error committing transaction: 'NoneType' object has no attribute 'commit'"]
          |})
    /\ rollback drv w
       = (Raise (PostgresDbQueryExecutionError
                   "Error rolling back transaction: 'NoneType' object has no attribute 'rollback'"
                   (none_has_no "rollback")),
          {| self := self w;
             trace := trace w ++ [LogError
               "Error rolling back transaction: 'NoneType' object has no attribute 'rollback'"]
          |}).
Proof.
  intros drv [s t] Hc Hcur Hl bare no_execute. cbn [self trace] in *.
  destruct s as [conn cur [lg|] u]; [|discriminate].
  cbn [connection cursor] in *. subst conn cur. subst bare.
  repeat split; intros.
  - eexists. split; [reflexivity|reflexivity].
  - eexists. split; [reflexivity|reflexivity].
  - unfold bulk_insert, bulk_insert_try.
    destruct (range 0 (Z.of_nat (List.length data)) K) as [[|i indices]|e];
      eexists; reflexivity.
Qed.

Lemma methods_without_connection_witness :
  let w := {| self := {| connection := None; cursor := None;
                         logger := Some default_logger;
                         use_dict_cursor := Some false |};
              trace := [] |} in
  insert (always_ok []) "INSERT INTO member (name) VALUES (%s)"
         (Some [VStr "ann"]) w
  = (Raise (none_has_no "rollback"),
     {| self := self w;
        trace := [LogError "Error executing insert: 'NoneType' object has no attribute 'execute'"]
     |}).
Proof.
  intros w.
  destruct (methods_without_connection (always_ok []) w eq_refl eq_refl
              eq_refl) as (_ & _ & H & _).
  exact (proj1 (H "INSERT INTO member (name) VALUES (%s)"
                  (Some [VStr "ann"]))).
Defined.

(** ** Scoped use *)

(** X16.  Used in a [with] statement, the instance is closed on every exit
    path: whether the block returns or raises, the release calls are made
    after it, and, the driver accepting them, the outcome of the block is
    the outcome of the statement: a value is returned, an exception is
    raised again, unchanged. *)
Theorem with_block_releases_on_every_path :
  forall drv (A : Type) (body : M A) w r w1,
    body w = (r, w1) ->
    self w1 = self w ->
    (truthy (connection (self w)) = true ->
     truthy (logger (self w)) = true) ->
    all_succeeded drv (trace w1) (released (self w)) ->
    with_block drv body w
    = (r, {| self := self w; trace := trace w1 ++ released (self w) |}).
Proof.
  intros drv A body w r [s1 t1] Hb Hs Hl Hok. cbn [self trace] in *.
  subst s1. unfold with_block, __enter__, __exit__.
  unfold bind at 1, ret at 1. rewrite Hb.
  destruct r as [a|e]; unfold bind;
    rewrite (close_run drv (self w) t1 Hl Hok); reflexivity.
Qed.

Lemma with_block_releases_on_every_path_witness :
  let drv := rejects_statements in
  let w := at_start (opened default_logger false false) in
  let msg := "Error executing query: syntax error at or near FORM" in
  let body := select_execute_query drv "SELECT * FORM member" None in
  with_block drv body w
  = (Raise (PostgresDbQueryExecutionError msg
              (Psycopg2Error "syntax error at or near FORM")),
     {| self := self w;
        trace := [Execute "SELECT * FORM member" None; LogError msg;
                  Rollback; CursorClose; ConnectionClose;
                  LogInfo "Database connection closed."] |}).
Proof.
  intros drv w msg body.
  apply (with_block_releases_on_every_path drv _ body w
           (Raise (PostgresDbQueryExecutionError msg
                     (Psycopg2Error "syntax error at or near FORM")))
           {| self := self w;
              trace := [Execute "SELECT * FORM member" None; LogError msg;
                        Rollback] |}).
  - reflexivity.
  - reflexivity.
  - reflexivity.
  - cbn. repeat split; reflexivity.
Defined.

(** X17.  If releasing the cursor fails when the [with] statement is left,
    the [PostgresDbConnectionError] of [close] is what the statement raises,
    whatever the block had returned or raised. *)
Theorem with_block_close_failure_masks_outcome :
  forall drv (A : Type) (body : M A) w r w1 e,
    body w = (r, w1) ->
    self w1 = self w ->
    truthy (cursor (self w)) = true ->
    truthy (logger (self w)) = true ->
    fails drv (trace w1) CursorClose = Some e ->
    let msg := ("Error closing connection: " ++ str e)%string in
    with_block drv body w
    = (Raise (PostgresDbConnectionError msg e),
       {| self := self w;
          trace := trace w1 ++ [CursorClose; LogError msg] |}).
Proof.
  intros drv A body w r [s1 t1] e Hb Hs Hc Hl He msg.
  cbn [self trace] in *.
  subst s1. unfold with_block, __enter__, __exit__.
  unfold bind at 1, ret at 1. rewrite Hb.
  destruct (self w) as [conn [cur|] [lg|] u]; try discriminate.
  destruct r as [a|e0]; unfold close, close_try; run_py; rewrite He;
    run_py; now rewrite <- app_assoc.
Qed.

Lemma with_block_close_failure_masks_outcome_witness :
  let drv :=
    {| fails := fun _ ev =>
         if is_cursor_close ev then Some (Psycopg2Error "cursor busy")
         else None;
       fetchall_rows := fun _ => [Tuple [VInt 1]];
       fetchone_row := fun _ => None |} in
  let w := at_start (opened default_logger false false) in
  let msg := "Error closing connection: cursor busy" in
  with_block drv (select_execute_query drv "select 1" None) w
  = (Raise (PostgresDbConnectionError msg (Psycopg2Error "cursor busy")),
     {| self := self w;
        trace := [Execute "select 1" None; FetchAll; CursorClose;
                  LogError msg] |}).
Proof.
  intros drv w msg.
  apply (with_block_close_failure_masks_outcome drv _
           (select_execute_query drv "select 1" None) w
           (Return (Some [Tuple [VInt 1]]))
           {| self := self w;
              trace := [Execute "select 1" None; FetchAll] |}
           (Psycopg2Error "cursor busy")); reflexivity.
Defined.

(** ** The constructor from line 67 on *)

(** X18.  Lines 67 to 83 of [__init__], on their own: a failing connection
    attempt is logged and raised as [PostgresDbConnectionError] carrying the
    cause, with connection and cursor as they were.  But when the
    connection is opened and creating the cursor fails, the error is raised
    with the new connection stored in [self.connection] and never closed. *)
Theorem init_from_line_67_failures :
  forall drv host port database user password logger
         (autocommit use_dict_cursor : bool) w e,
    let lg := logger_or_default logger in
    let t := trace w ++ logger_setup logger in
    let c := Connect host port database user password in
    let f := if use_dict_cursor then Some RealDictCursor else None in
    let msg := ("Error connecting to the database: " ++ str e)%string in
    let run := init_from_line_67 drv host port database user password
                 logger autocommit use_dict_cursor w in
    (fails drv t c = Some e ->
     run = (Raise (PostgresDbConnectionError msg e),
            {| self := {| connection := connection (self w);
                          cursor := cursor (self w);
                          logger := Some lg;
                          use_dict_cursor := Some use_dict_cursor |};
               trace := t ++ [c; LogError msg] |}))
    /\ (fails drv t c = None ->
        fails drv (t ++ [c]) (NewCursor f) = Some e ->
        run = (Raise (PostgresDbConnectionError msg e),
               {| self := {| connection :=
                               Some {| autocommit := autocommit |};
                             cursor := cursor (self w);
                             logger := Some lg;
                             use_dict_cursor := Some use_dict_cursor |};
                  trace := t ++ [c; NewCursor f; LogError msg] |})).
Proof.
  intros drv host port database user password logger autocommit
    use_dict_cursor [s t0] e lg t c f msg run.
  subst run lg t c f msg. cbn [self trace].
  split.
  - intros Hc. unfold init_from_line_67.
    destruct logger as [l|]; cbn [logger_setup logger_or_default] in *;
      run_py; rewrite ?app_nil_r in *; rewrite Hc; run_py;
      now rewrite <- !app_assoc.
  - intros Hc Hf. unfold init_from_line_67.
    destruct logger as [l|]; cbn [logger_setup logger_or_default] in *;
      run_py; rewrite ?app_nil_r in *; rewrite Hc; run_py; rewrite Hf;
      run_py; now rewrite <- !app_assoc.
Qed.

Lemma init_from_line_67_failures_witness :
  let drv :=
    {| fails := fun _ ev =>
         match ev with
         | NewCursor _ => Some (Psycopg2Error "out of memory")
         | _ => None
         end;
       fetchall_rows := fun _ => [];
       fetchone_row := fun _ => None |} in
  let msg := "Error connecting to the database: out of memory" in
  init_from_line_67 drv "localhost" 5432 "mydb" "myuser" "mypassword" None
                    true false (at_start fresh)
  = (Raise (PostgresDbConnectionError msg (Psycopg2Error "out of memory")),
     {| self := {| connection := Some {| autocommit := true |};
                   cursor := None;
                   logger := Some default_logger;
                   use_dict_cursor := Some false |};
        trace := [AddHandler "PostgresHelper";
                  Connect "localhost" 5432 "mydb" "myuser" "mypassword";
                  NewCursor None; LogError msg] |}).
Proof.
  intros drv msg.
  apply (proj2 (init_from_line_67_failures drv "localhost" 5432 "mydb"
                  "myuser" "mypassword" None true false (at_start fresh)
                  (Psycopg2Error "out of memory")));
    reflexivity.
Defined.

(** ** Use after close *)

Lemma grows_close drv : grows (close drv).
Proof.
  unfold close. apply grows_try; [apply grows_close_try|]. intros e. grows.
Qed.

Lemma first_call_is_execute drv {A} (rest : M A) (h : exn -> M A) q p w :
  truthy (cursor (self w)) = true ->
  grows rest -> (forall e, grows (h e)) ->
  exists r w2 evs,
    try_except (cursor_execute drv q p ;; rest) h w = (r, w2)
    /\ trace w2 = trace w ++ Execute q p :: evs.
Proof.
  intros Hc Hrest Hh.
  destruct (cursor (self w)) as [c|] eqn:Ec; [|discriminate].
  unfold try_except, bind, cursor_execute.
  rewrite (on_cursor_run _ _ _ _ c Ec), driver_call_run.
  destruct (fails drv (trace w) (Execute q p)) as [e|].
  - destruct (h e {| self := self w; trace := trace w ++ [Execute q p] |})
      as [r w2] eqn:E.
    destruct (Hh e _ _ _ E) as (_ & evs & T). exists r, w2, evs.
    split; [reflexivity|]. cbn [trace] in T. now rewrite T, <- app_assoc.
  - destruct (rest {| self := self w; trace := trace w ++ [Execute q p] |})
      as [[a|e] w1] eqn:E.
    + destruct (Hrest _ _ _ E) as (_ & evs & T). exists (Return a), w1, evs.
      split; [reflexivity|]. cbn [trace] in T. now rewrite T, <- app_assoc.
    + destruct (Hrest _ _ _ E) as (S1 & e1 & T1).
      destruct (h e w1) as [r w2] eqn:E2.
      destruct (Hh e _ _ _ E2) as (_ & e2 & T2).
      exists r, w2, (e1 ++ e2). split; [reflexivity|].
      cbn [trace] in T1. now rewrite T2, T1, <- !app_assoc.
Qed.

(** X19.  [close] does not mark the instance as closed: after it the
    instance still holds its cursor and connection, and a statement method
    called then still sends its statement to the driver, whose answer
    decides the outcome. *)
Theorem statement_after_close_reaches_driver :
  forall drv w w1 query params,
    is_open (self w) = true ->
    close drv w = (Return tt, w1) ->
    is_open (self w1) = true
    /\ (exists r w2 evs,
          select_execute_query drv query params w1 = (r, w2)
          /\ trace w2 = trace w1 ++ Execute query params :: evs)
    /\ (exists r w2 evs,
          insert drv query params w1 = (r, w2)
          /\ trace w2 = trace w1 ++ Execute query params :: evs).
Proof.
  intros drv w w1 query params Ho Hclose.
  destruct (grows_close drv _ _ _ Hclose) as (Hs & _).
  assert (Ho1 : is_open (self w1) = true) by now rewrite Hs.
  assert (Hc : truthy (cursor (self w1)) = true).
  { apply is_open_inv in Ho1 as (c & cur & lg & u & ->). reflexivity. }
  split; [exact Ho1|]. split.
  - apply first_call_is_execute; [exact Hc | |].
    + unfold cursor_fetchall. grows.
    + intros e. unfold connection_rollback. grows.
  - apply first_call_is_execute; [exact Hc | |].
    + unfold connection_commit. grows.
    + intros e. unfold connection_rollback. grows.
Qed.

Lemma statement_after_close_reaches_driver_witness :
  let drv := always_ok [Tuple [VInt 1]] in
  let w := at_start (opened default_logger false false) in
  let w1 := {| self := self w;
               trace := [CursorClose; ConnectionClose;
                         LogInfo "Database connection closed."] |} in
  is_open (self w) = true
  /\ close drv w = (Return tt, w1)
  /\ is_open (self w1) = true
  /\ exists r w2 evs,
       select_execute_query drv "select 1" None w1 = (r, w2)
       /\ trace w2 = trace w1 ++ Execute "select 1" None :: evs.
Proof.
  intros drv w w1.
  destruct (statement_after_close_reaches_driver drv w w1 "select 1" None
              eq_refl eq_refl) as (H1 & H2 & _).
  repeat split; assumption.
Defined.

(** ** A commit that fails under autocommit *)


